(** * The ripple reducer of react-md's states package

    A shallow embedding of [packages/states/src/ripples/reducer.ts] and the
    properties its specification states about it.

    The reducer works on JavaScript objects: ripples are compared with [===],
    arrays are copied with [slice] and then written to.  The embedding keeps
    that: ripples and arrays live in a store, a ripple set is the reference
    of an array of ripple references, and every transition is a computation
    over the store and the wall clock. *)

From stdpp Require Import base option list strings numbers.

Local Open Scope Z_scope.

(** ** Data model *)

(** A reference into the store. *)
Definition loc := nat.

(** A DOM element, known only by its identity. *)
Definition HTMLElement := positive.

Record Touch := { touchPageX : Z; touchPageY : Z }.

(** The fields [createRippleAction] copies out of the browser event
    (reducer.ts, lines 55-80).  A field the browser event does not have is
    [None]. *)
Record RippleEvent := {
  ev_type : string;
  ev_key : option string;
  ev_target : HTMLElement;
  ev_button : option Z;
  ev_currentTarget : HTMLElement;
  ev_touches : option (list Touch);
  ev_pageX : option Z;
  ev_pageY : option Z;
}.

(** Modelled from the spec: the positional data of a ripple, the coordinates
    taken from the event ([types.d.ts] is not among the sources); the
    reducer only ever copies it. *)
Record RippleStyle := { left : Z; top : Z }.

(** Modelled from the spec: the ripple record of [types.d.ts], with the
    fields the reducer reads or writes.  [startTime] is a reading of
    [Date.now()], an integer number of milliseconds. *)
Record RippleState := {
  startTime : Z;
  style : RippleStyle;
  type : string;
  holding : bool;
  exiting : bool;
  entered : bool;
  mounted : bool;
}.

(** The object spreads of the reducer, one per transition. *)

(** [{ ...ripple, exiting, entered: true }] *)
Definition spread_entered (ripple : RippleState) (exiting' : bool) : RippleState :=
  {| startTime := startTime ripple; style := style ripple; type := type ripple;
     holding := holding ripple; exiting := exiting'; entered := true;
     mounted := mounted ripple |}.

(** [{ ...ripple, exiting, holding: false }] *)
Definition spread_released (ripple : RippleState) (exiting' : bool) : RippleState :=
  {| startTime := startTime ripple; style := style ripple; type := type ripple;
     holding := false; exiting := exiting'; entered := entered ripple;
     mounted := mounted ripple |}.

(** [{ ...r, exiting: true, mounted: true, holding: false }] *)
Definition spread_cancelled (r : RippleState) : RippleState :=
  {| startTime := startTime r; style := style r; type := type r;
     holding := false; exiting := true; entered := entered r;
     mounted := true |}.

(** ** The store *)

Inductive Obj :=
| ORipple (r : RippleState)
| OArray (a : list loc).

(** The store grows at its end: the reference of a new object is the length
    of the store before the allocation.  [clock] is what [Date.now()]
    returns during the transition. *)
Record World := { heap : list Obj; clock : Z }.

(** A computation reads and extends the store; [None] is a run the typed
    program cannot have (a reference that is not in the store, or one of
    the wrong kind). *)
Definition M (A : Type) : Type := World → option (A * World).

Global Instance M_ret : MRet M := λ A a w, Some (a, w).
Global Instance M_bind : MBind M := λ A B f m w,
  match m w with
  | Some (a, w') => f a w'
  | None => None
  end.

Definition stuck {A} : M A := λ _, None.

Definition Date_now : M Z := λ w, Some (clock w, w).

Definition alloc (o : Obj) : M loc := λ w,
  Some (length (heap w), {| heap := heap w ++ [o]; clock := clock w |}).

Definition getRipple (l : loc) : M RippleState := λ w,
  match heap w !! l with
  | Some (ORipple r) => Some (r, w)
  | _ => None
  end.

Definition getArray (l : loc) : M (list loc) := λ w,
  match heap w !! l with
  | Some (OArray a) => Some (a, w)
  | _ => None
  end.

Definition putArray (l : loc) (a : list loc) : M unit := λ w,
  match heap w !! l with
  | Some (OArray _) =>
      Some (tt, {| heap := <[l := OArray a]> (heap w); clock := clock w |})
  | _ => None
  end.

(** ** The array methods the reducer uses *)

(** [a.slice()] *)
Definition slice (a : loc) : M loc :=
  xs ← getArray a; alloc (OArray xs).

(** [a[i]], for an index inside the array; outside it JavaScript gives
    [undefined], which no ripple set holds. *)
Definition array_get (a : loc) (i : Z) : M loc :=
  xs ← getArray a;
  if bool_decide (0 ≤ i) then
    match xs !! Z.to_nat i with
    | Some x => mret x
    | None => stuck
    end
  else stuck.

(** [a[i] = v].  Inside the array the entry is replaced, at its end the
    array grows by one; further out JavaScript leaves holes and at a
    negative index it sets a property that is no entry, neither of which a
    ripple set can hold. *)
Definition array_set (a : loc) (i : Z) (v : loc) : M unit :=
  xs ← getArray a;
  if bool_decide (0 ≤ i < Z.of_nat (length xs)) then
    putArray a (<[Z.to_nat i := v]> xs)
  else if bool_decide (i = Z.of_nat (length xs)) then
    putArray a (xs ++ [v])
  else stuck.

(** [a.splice(start, deleteCount)]: removes in place, returns what it
    removed.  A negative [start] counts from the end. *)
Definition splice (a : loc) (start deleteCount : Z) : M (list loc) :=
  xs ← getArray a;
  let len := Z.of_nat (length xs) in
  let from := if bool_decide (start < 0) then Z.max (len + start) 0
              else Z.min start len in
  let n := Z.min (Z.max deleteCount 0) (len - from) in
  putArray a (take (Z.to_nat from) xs ++ drop (Z.to_nat (from + n)) xs);;
  mret (take (Z.to_nat n) (drop (Z.to_nat from) xs)).

(** The loop of [findIndex]: the callback runs on the entries in order and
    stops at the first one it accepts. *)
Fixpoint findIndex_from (p : loc → M bool) (xs : list loc) (i : Z) : M Z :=
  match xs with
  | [] => mret (-1)
  | x :: xs' =>
      b ← p x;
      if (b : bool) then mret i else findIndex_from p xs' (i + 1)
  end.

(** [a.findIndex(p)] *)
Definition findIndex (p : loc → M bool) (a : loc) : M Z :=
  xs ← getArray a; findIndex_from p xs 0.

Fixpoint find_from (p : loc → M bool) (xs : list loc) : M (option loc) :=
  match xs with
  | [] => mret None
  | x :: xs' =>
      b ← p x;
      if (b : bool) then mret (Some x) else find_from p xs'
  end.

(** [a.find(p)]; [None] is [undefined]. *)
Definition find (p : loc → M bool) (a : loc) : M (option loc) :=
  xs ← getArray a; find_from p xs.

Fixpoint map_from (f : loc → M loc) (xs : list loc) : M (list loc) :=
  match xs with
  | [] => mret []
  | x :: xs' =>
      y ← f x;
      ys ← map_from f xs';
      mret (y :: ys)
  end.

(** [a.map(f)] *)
Definition array_map (f : loc → M loc) (a : loc) : M loc :=
  xs ← getArray a;
  ys ← map_from f xs;
  alloc (OArray ys).

(** ** The imported helpers *)

(** [reducer.ts] imports [isRippleable], [isBubbled], [createRippleState]
    and [getType] from [./utils], which is not among the sources.  The
    reducer is embedded over any implementation of them.
    [createRippleState] gets the clock reading of its call. *)
Class RippleUtils := {
  isRippleable : RippleEvent → bool → bool;
  isBubbled : RippleEvent → bool;
  getType : RippleEvent → string;
  createRippleState : RippleEvent → Z → RippleState;
}.

(** ** The transitions (reducer.ts, lines 84-178) *)

Definition CREATE : string := "CREATE".
Definition CANCEL : string := "CANCEL".
Definition RELEASE : string := "RELEASE".
Definition ENTERED : string := "ENTERED".
Definition REMOVE : string := "REMOVE".

Section Reducer.
Context `{U : RippleUtils}.

Definition createRipple (state : loc) (event : RippleEvent)
    (disableSpacebarClick : bool) : M loc :=
  if negb (isRippleable event disableSpacebarClick) || isBubbled event then
    mret state
  else
    blocked ←
      (if negb (String.eqb (getType event) "touch") then
         found ← find (λ l, r ← getRipple l;
                            mret (String.eqb (type r) "touch")) state;
         mret (bool_decide (is_Some found))
       else mret false);
    if (blocked : bool) then mret state
    else
      now ← Date_now;
      ripple ← alloc (ORipple (createRippleState event now));
      xs ← getArray state;
      alloc (OArray (xs ++ [ripple])).

Definition enteredRipple (state : loc) (ripple : loc) : M loc :=
  i ← findIndex (λ r, mret (bool_decide (r = ripple))) state;
  if bool_decide (i = -1) then mret state
  else
    rp ← getRipple ripple;
    if exiting rp then mret state
    else
      nextState ← slice state;
      exiting' ←
        (if negb (holding rp) then mret true
         else now ← Date_now; mret (now - startTime rp >? 300));
      o ← alloc (ORipple (spread_entered rp exiting'));
      array_set nextState i o;;
      mret nextState.

Definition releaseRipple (state : loc) : M loc :=
  i ← findIndex (λ l, r ← getRipple l;
                      mret (holding r && negb (exiting r))) state;
  if bool_decide (i = -1) then mret state
  else
    ripple ← array_get state i;
    rp ← getRipple ripple;
    exiting' ←
      (if entered rp then mret true
       else now ← Date_now; mret (now - startTime rp >? 300));
    nextState ← slice state;
    o ← alloc (ORipple (spread_released rp exiting'));
    array_set nextState i o;;
    mret nextState.

Definition removeRipple (state : loc) (ripple : loc) : M loc :=
  i ← findIndex (λ l, r ← getRipple l;
                      rp ← getRipple ripple;
                      mret (startTime r =? startTime rp)) state;
  if bool_decide (i = -1) then mret state
  else
    nextState ← slice state;
    splice nextState i 1;;
    mret nextState.

Definition cancelRipples (state : loc) (ease : bool) : M loc :=
  if ease then
    array_map (λ l, r ← getRipple l; alloc (ORipple (spread_cancelled r))) state
  else alloc (OArray []).

(** An action object.  [UnknownAction] is an object whose [type] the
    reducer's [switch] has no case for; the static type of the action
    rules it out, the running code does not. *)
Inductive Action :=
| CreateAction (event : RippleEvent) (disableSpacebarClick : bool)
| ReleaseAction (event : RippleEvent)
| CancelAction (ease : bool)
| EnteredAction (ripple : loc)
| RemoveAction (ripple : loc)
| UnknownAction (type : string).

Definition action_type (action : Action) : string :=
  match action with
  | CreateAction _ _ => CREATE
  | ReleaseAction _ => RELEASE
  | CancelAction _ => CANCEL
  | EnteredAction _ => ENTERED
  | RemoveAction _ => REMOVE
  | UnknownAction t => t
  end.

(** [state] is [None] when the caller passes [undefined]: the default
    [[]] is then allocated.  The [switch] goes by the [type] string; an
    object that carries one of the five strings without that action's
    fields is outside the typed program. *)
Definition reducer (state : option loc) (action : Action) : M loc :=
  state ← (match state with
           | Some s => mret s
           | None => alloc (OArray [])
           end);
  let t := action_type action in
  if String.eqb t CREATE then
    match action with
    | CreateAction event disableSpacebarClick =>
        createRipple state event disableSpacebarClick
    | _ => stuck
    end
  else if String.eqb t RELEASE then
    releaseRipple state
  else if String.eqb t CANCEL then
    match action with
    | CancelAction ease => cancelRipples state ease
    | _ => stuck
    end
  else if String.eqb t ENTERED then
    match action with
    | EnteredAction ripple => enteredRipple state ripple
    | _ => stuck
    end
  else if String.eqb t REMOVE then
    match action with
    | RemoveAction ripple => removeRipple state ripple
    | _ => stuck
    end
  else mret state.

End Reducer.

(** ** The helpers as the specification describes them *)

(** Modelled from the spec: [getType] of [utils.ts], the modality read off
    the shape of the event: touch points, else a button, else a key. *)
Definition spec_getType (event : RippleEvent) : string :=
  match ev_touches event with
  | Some _ => "touch"
  | None =>
      match ev_button event with
      | Some _ => "mouse"
      | None => "keyboard"
      end
  end.

(** Modelled from the spec: [isRippleable] of [utils.ts]: only the primary
    button of a pointer, only Enter and Space of the keys, and Space only
    while [disableSpacebarClick] is off. *)
Definition spec_isRippleable (event : RippleEvent)
    (disableSpacebarClick : bool) : bool :=
  match ev_touches event, ev_button event with
  | Some _, _ => true
  | None, Some b => bool_decide (b = 0)
  | None, None =>
      bool_decide (ev_key event = Some "Enter")
      || (bool_decide (ev_key event = Some " ") && negb disableSpacebarClick)
  end.

(** Modelled from the spec: [isBubbled] of [utils.ts]: the target of the
    event is not the element that owns the ripple surface. *)
Definition spec_isBubbled (event : RippleEvent) : bool :=
  negb (bool_decide (ev_target event = ev_currentTarget event)).

(** Modelled from the spec: the positional data of [createRippleState];
    the coordinates of a touch go before those of the pointer. *)
Definition spec_position (event : RippleEvent) : RippleStyle :=
  match ev_touches event with
  | Some (t :: _) => {| left := touchPageX t; top := touchPageY t |}
  | _ => {| left := default 0 (ev_pageX event);
            top := default 0 (ev_pageY event) |}
  end.

(** Modelled from the spec: [createRippleState] of [utils.ts]. *)
Definition spec_createRippleState (event : RippleEvent) (now : Z) : RippleState :=
  {| startTime := now; style := spec_position event;
     type := spec_getType event;
     holding := true; exiting := false; entered := false; mounted := true |}.

(** Modelled from the spec: the four helpers of [utils.ts] together. *)
Definition spec_utils : RippleUtils :=
  {| isRippleable := spec_isRippleable;
     isBubbled := spec_isBubbled;
     getType := spec_getType;
     createRippleState := spec_createRippleState |}.

(** ** Reading a ripple set out of the store *)

(** The ripple a reference stands for. *)
Definition deref (h : list Obj) (l : loc) : option RippleState :=
  match h !! l with
  | Some (ORipple r) => Some r
  | _ => None
  end.

(** The references an array holds, in order. *)
Definition entries (h : list Obj) (a : loc) : option (list loc) :=
  match h !! a with
  | Some (OArray xs) => Some xs
  | _ => None
  end.

(** The ripples of a set, in order: what the renderer sees. *)
Definition snapshot (h : list Obj) (state : loc) : option (list RippleState) :=
  xs ← entries h state; mapM (deref h) xs.

(** What [findIndex] returns when the search for the first accepted entry
    ends: its index, or [-1] when there is none. *)
Definition found_index {A} (o : option (nat * A)) : Z :=
  match o with
  | Some (i, _) => Z.of_nat i
  | None => -1
  end.

(** The index of the first entry that is the reference [ripple]. *)
Definition found_at (ripple : loc) (ls : list loc) : nat :=
  match list_find (λ l, l = ripple) ls with
  | Some (i, _) => i
  | None => 0
  end.

(** The ripple RELEASE puts in the place of [r] at clock reading [now]
    (reducer.ts, lines 126-132). *)
Definition released (now : Z) (r : RippleState) : RippleState :=
  spread_released r (entered r || (now - startTime r >? 300)).

(** The ripple ENTERED puts in the place of [r] at clock reading [now]
    (reducer.ts, lines 110-115). *)
Definition entered_at (now : Z) (r : RippleState) : RippleState :=
  spread_entered r (negb (holding r) || (now - startTime r >? 300)).

(** The store after a transition that allocated [ext]. *)
Definition extend (w : World) (ext : list Obj) : World :=
  {| heap := heap w ++ ext; clock := clock w |}.

(** ** Sequences of events *)

(** The state [useReducer(reducer, [])] starts from: the empty array and
    nothing else. *)
Definition initial_heap : list Obj := [OArray []].
Definition initial_state : loc := 0%nat.

(** Dispatching actions one after the other, each at its own reading of
    the clock, the state of one being the state the next starts from. *)
Fixpoint dispatch_all `{U : RippleUtils} (actions : list (Action * Z))
    (state : loc) (h : list Obj) : option (loc * list Obj) :=
  match actions with
  | [] => Some (state, h)
  | (action, now) :: rest =>
      match reducer (Some state) action {| heap := h; clock := now |} with
      | Some (state', w') => dispatch_all rest state' (heap w')
      | None => None
      end
  end.

(** A well-typed action: the ripple of an ENTERED or REMOVE action is a
    ripple of the store, and the [type] of an object with no case of its
    own in the [switch] is none of the five. *)
Definition action_typed (h : list Obj) (action : Action) : Prop :=
  match action with
  | EnteredAction ripple | RemoveAction ripple => is_Some (deref h ripple)
  | UnknownAction t => t ∉ [CREATE; RELEASE; CANCEL; ENTERED; REMOVE]
  | _ => True
  end.

(** The touch and mouse exclusion as a property of a set: no ripple of
    another modality comes after a touch ripple. *)
Definition touch_last (rs : list RippleState) : Prop :=
  ∀ i j ri rj, (i < j)%nat → rs !! i = Some ri → rs !! j = Some rj →
    type ri = "touch" → type rj = "touch".

(** What the reducer keeps of a state: it is a set of ripples of the
    store, and no ripple of another modality comes after a touch ripple. *)
Definition ripple_set_ok (h : list Obj) (state : loc) : Prop :=
  ∃ rs, snapshot h state = Some rs ∧ touch_last rs.

(** ** The store before and after a transition *)

(** Nothing that was in the store has changed: every reference stands for
    the object it stood for. *)
Definition unmutated (w w' : World) : Prop :=
  ∀ l o, heap w !! l = Some o → heap w' !! l = Some o.

(** A reference the store did not have. *)
Definition is_new (w : World) (l : loc) : Prop := heap w !! l = None.

(** ** Concrete events and sets *)

Definition ev_mouse (el : HTMLElement) : RippleEvent :=
  {| ev_type := "mousedown"; ev_key := None; ev_target := el;
     ev_button := Some 0; ev_currentTarget := el; ev_touches := None;
     ev_pageX := Some 10; ev_pageY := Some 20 |}.

Definition ev_touch (el : HTMLElement) : RippleEvent :=
  {| ev_type := "touchstart"; ev_key := None; ev_target := el;
     ev_button := None; ev_currentTarget := el;
     ev_touches := Some [ {| touchPageX := 3; touchPageY := 4 |} ];
     ev_pageX := None; ev_pageY := None |}.

Definition mouse_ripple (t : Z) : RippleState :=
  {| startTime := t; style := {| left := 10; top := 20 |}; type := "mouse";
     holding := true; exiting := false; entered := false; mounted := true |}.

Definition touch_ripple (t : Z) : RippleState :=
  {| startTime := t; style := {| left := 3; top := 4 |}; type := "touch";
     holding := true; exiting := false; entered := false; mounted := true |}.

(** A store with the set [[1; 2]] at reference [0]: a mouse ripple that is
    already exiting and a touch ripple still held, both created at 100. *)
Definition two_ripples : list Obj :=
  [OArray [1; 2]%nat;
   ORipple {| startTime := 100; style := {| left := 10; top := 20 |};
              type := "mouse"; holding := true; exiting := true;
              entered := true; mounted := true |};
   ORipple (touch_ripple 100)].

(** A store with the one-ripple set [[1]] at reference [0], the ripple as
    [createRippleState] leaves it at clock reading 1000. *)
Definition one_ripple : list Obj := [OArray [1%nat]; ORipple (mouse_ripple 1000)].

(** A tap on a touch device followed by the mouse event the browser
    makes up for it, then the ripple of the tap growing, the finger
    lifting, and the ripple going. *)
Definition tap_actions : list (Action * Z) :=
  [ (CreateAction (ev_touch 1%positive) false, 100);
    (CreateAction (ev_mouse 1%positive) false, 104);
    (EnteredAction 1%nat, 250);
    (ReleaseAction (ev_touch 1%positive), 420);
    (RemoveAction 4%nat, 600) ].

(** ** Further notions for the transitions *)

(** A ripple RELEASE can pick: held and not exiting (reducer.ts, line
    120). *)
Definition held (r : RippleState) : bool := holding r && negb (exiting r).

(** The readings of the clock at which the CREATE actions of a sequence
    are dispatched, in order. *)
Definition create_readings (actions : list (Action * Z)) : list Z :=
  omap (λ p, match p.1 with
             | CreateAction _ _ => Some p.2
             | _ => None
             end) actions.

(** A well-formed set: its entries are ripples of the store and no
    reference occurs twice among them. *)
Definition set_wf (h : list Obj) (state : loc) : Prop :=
  ∃ ls rs, entries h state = Some ls ∧ mapM (deref h) ls = Some rs ∧ NoDup ls.

(** * Proofs *)

(** ** Running computations *)

Lemma bind_run {A B} (m : M A) (f : A → M B) w a w' :
  m w = Some (a, w') → (m ≫= f) w = f a w'.
Proof. intros H. unfold mbind, M_bind. by rewrite H. Qed.

Lemma ret_run {A} (a : A) w : (mret a : M A) w = Some (a, w).
Proof. reflexivity. Qed.

Lemma deref_Some h l r : deref h l = Some r ↔ h !! l = Some (ORipple r).
Proof.
  unfold deref. destruct (h !! l) as [[]|]; split; intros; simplify_eq; done.
Qed.

Lemma entries_Some h a xs : entries h a = Some xs ↔ h !! a = Some (OArray xs).
Proof.
  unfold entries. destruct (h !! a) as [[]|]; split; intros; simplify_eq; done.
Qed.

Lemma getRipple_run w l r :
  deref (heap w) l = Some r → getRipple l w = Some (r, w).
Proof. intros H%deref_Some. unfold getRipple. by rewrite H. Qed.

Lemma getArray_run w a xs :
  entries (heap w) a = Some xs → getArray a w = Some (xs, w).
Proof. intros H%entries_Some. unfold getArray. by rewrite H. Qed.

Lemma putArray_run w a xs ys :
  entries (heap w) a = Some xs →
  putArray a ys w
  = Some (tt, {| heap := <[a := OArray ys]> (heap w); clock := clock w |}).
Proof. intros H%entries_Some. unfold putArray. by rewrite H. Qed.

(** The store only grows: what a reference stood for, it stands for. *)
Lemma deref_app h ext l r : deref h l = Some r → deref (h ++ ext) l = Some r.
Proof. rewrite !deref_Some. apply lookup_app_l_Some. Qed.

Lemma entries_app h ext a xs :
  entries h a = Some xs → entries (h ++ ext) a = Some xs.
Proof. rewrite !entries_Some. apply lookup_app_l_Some. Qed.

Lemma entries_new h xs ext : entries (h ++ OArray xs :: ext) (length h) = Some xs.
Proof. apply entries_Some, list_lookup_middle. done. Qed.

Lemma deref_new h r ext : deref (h ++ ORipple r :: ext) (length h) = Some r.
Proof. apply deref_Some, list_lookup_middle. done. Qed.

Lemma mapM_deref_app h ext ls rs :
  mapM (deref h) ls = Some rs → mapM (deref (h ++ ext)) ls = Some rs.
Proof.
  rewrite !mapM_Some. intros H.
  induction H; constructor; auto using deref_app.
Qed.

Lemma mapM_deref_lookup h ls rs i r :
  mapM (deref h) ls = Some rs → rs !! i = Some r →
  ∃ l, ls !! i = Some l ∧ deref h l = Some r.
Proof.
  rewrite mapM_Some. intros H Hr.
  destruct (Forall2_lookup_r _ _ _ _ _ H Hr) as (l & Hl & Hd). eauto.
Qed.

Lemma mapM_deref_length h ls rs :
  mapM (deref h) ls = Some rs → length rs = length ls.
Proof. rewrite mapM_Some. intros H. symmetry. by eapply Forall2_length. Qed.

Lemma slice_run w a xs :
  entries (heap w) a = Some xs →
  slice a w
  = Some (length (heap w),
          {| heap := heap w ++ [OArray xs]; clock := clock w |}).
Proof.
  intros H. unfold slice. by rewrite (bind_run _ _ _ _ _ (getArray_run _ _ _ H)).
Qed.

Lemma array_get_run w a xs i x :
  entries (heap w) a = Some xs → xs !! i = Some x →
  array_get a (Z.of_nat i) w = Some (x, w).
Proof.
  intros H Hx. unfold array_get.
  rewrite (bind_run _ _ _ _ _ (getArray_run _ _ _ H)).
  rewrite bool_decide_true by lia. by rewrite Nat2Z.id, Hx.
Qed.

Lemma array_set_run w a xs i v :
  entries (heap w) a = Some xs → (i < length xs)%nat →
  array_set a (Z.of_nat i) v w
  = Some (tt, {| heap := <[a := OArray (<[i := v]> xs)]> (heap w);
                 clock := clock w |}).
Proof.
  intros H Hi. unfold array_set.
  rewrite (bind_run _ _ _ _ _ (getArray_run _ _ _ H)).
  rewrite bool_decide_true by lia. rewrite Nat2Z.id.
  by apply putArray_run with xs.
Qed.

Lemma splice_one_run w a xs i x :
  entries (heap w) a = Some xs → xs !! i = Some x →
  splice a (Z.of_nat i) 1 w
  = Some ([x], {| heap := <[a := OArray (delete i xs)]> (heap w);
                  clock := clock w |}).
Proof.
  intros H Hx. pose proof (lookup_lt_Some _ _ _ Hx) as Hi.
  unfold splice. rewrite (bind_run _ _ _ _ _ (getArray_run _ _ _ H)).
  rewrite bool_decide_false by lia.
  replace (Z.min (Z.of_nat i) (Z.of_nat (length xs))) with (Z.of_nat i) by lia.
  replace (Z.min (Z.max 1 0) (Z.of_nat (length xs) - Z.of_nat i)) with 1 by lia.
  replace (Z.to_nat (Z.of_nat i + 1)) with (S i) by lia.
  rewrite Nat2Z.id.
  erewrite bind_run by (by apply putArray_run with xs).
  rewrite ret_run, <- delete_take_drop.
  change (Z.to_nat 1) with 1%nat.
  by rewrite (drop_S _ _ _ Hx).
Qed.

(** ** Searching a set *)

Lemma found_index_shift {A} (o : option (nat * A)) k :
  match o with Some (i, _) => k + 1 + Z.of_nat i | None => -1 end
  = match prod_map S id <$> o with
    | Some (i, _) => k + Z.of_nat i
    | None => -1
    end.
Proof. destruct o as [[i x]|]; simpl; [lia | done]. Qed.

(** A callback that only reads the ripple of the entry finds the first
    ripple it accepts. *)
Lemma findIndex_from_run (q : RippleState → bool) (p : loc → M bool) w ls rs k :
  (∀ l r, deref (heap w) l = Some r → p l w = Some (q r, w)) →
  mapM (deref (heap w)) ls = Some rs →
  0 ≤ k →
  findIndex_from p ls k w
  = Some (match list_find (λ r, q r) rs with
          | Some (i, _) => k + Z.of_nat i
          | None => -1
          end, w).
Proof.
  intros Hp H%mapM_Some. revert k.
  induction H as [|l r ls rs Hl H IH]; intros k Hk; [done|].
  cbn [findIndex_from list_find].
  rewrite (bind_run _ _ _ _ _ (Hp _ _ Hl)).
  destruct (q r) eqn:Hq.
  - rewrite decide_True by done. rewrite ret_run. do 2 f_equal. lia.
  - rewrite decide_False by (by intros ?). rewrite IH by lia.
    do 2 f_equal. apply found_index_shift.
Qed.

Lemma findIndex_run (q : RippleState → bool) (p : loc → M bool) w a ls rs :
  (∀ l r, deref (heap w) l = Some r → p l w = Some (q r, w)) →
  entries (heap w) a = Some ls →
  mapM (deref (heap w)) ls = Some rs →
  findIndex p a w = Some (found_index (list_find (λ r, q r) rs), w).
Proof.
  intros Hp Ha Hrs. unfold findIndex.
  rewrite (bind_run _ _ _ _ _ (getArray_run _ _ _ Ha)).
  rewrite (findIndex_from_run q p w ls rs 0 Hp Hrs) by lia.
  unfold found_index. by destruct (list_find _ rs) as [[i x]|].
Qed.

(** The search by reference looks at no ripple. *)
Lemma findIndex_from_ref ripple w ls k :
  0 ≤ k →
  findIndex_from (λ r, mret (bool_decide (r = ripple))) ls k w
  = Some (match list_find (λ l, l = ripple) ls with
          | Some (i, _) => k + Z.of_nat i
          | None => -1
          end, w).
Proof.
  revert k. induction ls as [|l ls IH]; intros k Hk; [done|].
  cbn [findIndex_from list_find].
  erewrite bind_run by apply ret_run.
  destruct (decide (l = ripple)) as [->|Hne].
  - rewrite bool_decide_true by done. rewrite ret_run. do 2 f_equal. lia.
  - rewrite bool_decide_false by done. rewrite IH by lia.
    do 2 f_equal. apply found_index_shift.
Qed.

Lemma findIndex_ref_run ripple w a ls :
  entries (heap w) a = Some ls →
  findIndex (λ r, mret (bool_decide (r = ripple))) a w
  = Some (found_index (list_find (λ l, l = ripple) ls), w).
Proof.
  intros Ha. unfold findIndex.
  rewrite (bind_run _ _ _ _ _ (getArray_run _ _ _ Ha)).
  rewrite findIndex_from_ref by lia.
  unfold found_index. by destruct (list_find _ ls) as [[i x]|].
Qed.

Lemma found_index_Some {A} (i : nat) (x : A) :
  bool_decide (found_index (Some (i, x)) = -1) = false.
Proof. apply bool_decide_false. simpl. lia. Qed.

(** [find] with a callback that only reads the ripple of the entry. *)
Lemma find_from_run (q : RippleState → bool) (p : loc → M bool) w ls rs :
  (∀ l r, deref (heap w) l = Some r → p l w = Some (q r, w)) →
  mapM (deref (heap w)) ls = Some rs →
  ∃ found,
    find_from p ls w = Some (found, w)
    ∧ (is_Some found ↔ Exists (λ r, q r) rs).
Proof.
  intros Hp H%mapM_Some.
  induction H as [|l r ls rs Hl H IH].
  - exists None. split; [done|]. rewrite Exists_nil. split; [by intros [? ?]|done].
  - cbn [find_from]. rewrite (bind_run _ _ _ _ _ (Hp _ _ Hl)).
    destruct (q r) eqn:Hq.
    + exists (Some l). split; [done|]. split; [|by eauto].
      intros _. apply Exists_cons_hd. by rewrite Hq.
    + destruct IH as (found & Hf & Hiff). exists found. split; [done|].
      rewrite Hiff, Exists_cons. split; [by auto|].
      intros [Hr|?]; [|done]. by rewrite Hq in Hr.
Qed.

(** ** What each transition returns and allocates *)

Section Runs.
Context `{U : RippleUtils}.

Lemma releaseRipple_run w state ls rs :
  entries (heap w) state = Some ls →
  mapM (deref (heap w)) ls = Some rs →
  releaseRipple state w
  = Some (match list_find (λ r, holding r && negb (exiting r)) rs with
          | None => (state, w)
          | Some (i, r) =>
              (length (heap w),
               extend w [OArray (<[i := S (length (heap w))]> ls);
                         ORipple (released (clock w) r)])
          end).
Proof.
  intros Ha Hrs. unfold releaseRipple.
  erewrite bind_run;
    [|eapply (findIndex_run (λ r, holding r && negb (exiting r))); eauto].
  2: { intros l r Hl. by rewrite (bind_run _ _ _ _ _ (getRipple_run _ _ _ Hl)). }
  destruct (list_find _ rs) as [[i r]|] eqn:Hfind; [|done].
  rewrite found_index_Some. apply list_find_Some in Hfind as (Hr & _ & _).
  destruct (mapM_deref_lookup _ _ _ _ _ Hrs Hr) as (l & Hl & Hd).
  simpl found_index.
  rewrite (bind_run _ _ _ _ _ (array_get_run _ _ _ _ _ Ha Hl)).
  rewrite (bind_run _ _ _ _ _ (getRipple_run _ _ _ Hd)).
  erewrite bind_run with (a := entered r || (clock w - startTime r >? 300))
    by (by destruct (entered r)).
  rewrite (bind_run _ _ _ _ _ (slice_run _ _ _ Ha)).
  erewrite bind_run by reflexivity.
  erewrite bind_run.
  2: { apply array_set_run with (xs := ls).
       - simpl. rewrite <- app_assoc. apply entries_new.
       - by apply lookup_lt_Some in Hl. }
  rewrite ret_run. simpl. unfold extend. do 3 f_equal.
  rewrite <- app_assoc. simpl.
  rewrite <- (Nat.add_0_r (length (heap w))) at 1.
  rewrite insert_app_r. simpl. by rewrite length_app, Nat.add_1_r.
Qed.

Lemma enteredRipple_absent w state ripple ls :
  entries (heap w) state = Some ls →
  ripple ∉ ls →
  enteredRipple state ripple w = Some (state, w).
Proof.
  intros Ha Hnot. unfold enteredRipple.
  rewrite (bind_run _ _ _ _ _ (findIndex_ref_run ripple _ _ _ Ha)).
  destruct (list_find _ ls) as [[i l]|] eqn:Hfind; [|done].
  apply list_find_Some in Hfind as (Hl & -> & _).
  destruct Hnot. by eapply list_elem_of_lookup_2.
Qed.

Lemma enteredRipple_present w state ripple ls rp :
  entries (heap w) state = Some ls →
  ripple ∈ ls →
  deref (heap w) ripple = Some rp →
  enteredRipple state ripple w
  = Some (if exiting rp then (state, w)
          else
            (length (heap w),
             extend w [OArray (<[found_at ripple ls := S (length (heap w))]> ls);
                       ORipple (entered_at (clock w) rp)])).
Proof.
  intros Ha Hin Hd. unfold enteredRipple, found_at.
  rewrite (bind_run _ _ _ _ _ (findIndex_ref_run ripple _ _ _ Ha)).
  destruct (list_find _ ls) as [[i l]|] eqn:Hfind.
  2: { apply list_find_None in Hfind.
       rewrite Forall_forall in Hfind. apply list_elem_of_In in Hin.
       by destruct (Hfind ripple Hin). }
  rewrite found_index_Some. apply list_find_Some in Hfind as (Hl & -> & _).
  simpl found_index.
  rewrite (bind_run _ _ _ _ _ (getRipple_run _ _ _ Hd)).
  destruct (exiting rp); [done|].
  rewrite (bind_run _ _ _ _ _ (slice_run _ _ _ Ha)).
  erewrite bind_run with (a := negb (holding rp) || (clock w - startTime rp >? 300))
    by (by destruct (holding rp)).
  erewrite bind_run by reflexivity.
  erewrite bind_run.
  2: { apply array_set_run with (xs := ls).
       - simpl. rewrite <- app_assoc. apply entries_new.
       - by apply lookup_lt_Some in Hl. }
  rewrite ret_run. simpl. unfold extend. do 3 f_equal.
  rewrite <- app_assoc. simpl.
  rewrite <- (Nat.add_0_r (length (heap w))) at 1.
  rewrite insert_app_r. simpl. by rewrite length_app, Nat.add_1_r.
Qed.

Lemma removeRipple_run w state ripple ls rs rp :
  entries (heap w) state = Some ls →
  mapM (deref (heap w)) ls = Some rs →
  deref (heap w) ripple = Some rp →
  removeRipple state ripple w
  = Some (match list_find (λ r, startTime r = startTime rp) rs with
          | None => (state, w)
          | Some (i, _) =>
              (length (heap w), extend w [OArray (delete i ls)])
          end).
Proof.
  intros Ha Hrs Hd. unfold removeRipple.
  erewrite bind_run;
    [|eapply (findIndex_run (λ r, startTime r =? startTime rp)); eauto].
  2: { intros l r Hl.
       rewrite (bind_run _ _ _ _ _ (getRipple_run _ _ _ Hl)).
       by rewrite (bind_run _ _ _ _ _ (getRipple_run _ _ _ Hd)). }
  rewrite (list_find_ext _ (λ r, startTime r = startTime rp)).
  2: { intros r. rewrite Is_true_true. apply Z.eqb_eq. }
  destruct (list_find _ rs) as [[i r]|] eqn:Hfind; [|done].
  rewrite found_index_Some. apply list_find_Some in Hfind as (Hr & _ & _).
  destruct (mapM_deref_lookup _ _ _ _ _ Hrs Hr) as (l & Hl & _).
  simpl found_index.
  rewrite (bind_run _ _ _ _ _ (slice_run _ _ _ Ha)).
  erewrite bind_run.
  2: { apply splice_one_run with (xs := ls) (x := l); [|done].
       simpl. apply entries_new. }
  rewrite ret_run. simpl. unfold extend. do 3 f_equal.
  rewrite <- (Nat.add_0_r (length (heap w))) at 1.
  by rewrite insert_app_r.
Qed.

(** On the empty set the callback never runs and [ripple] is not read. *)
Lemma removeRipple_empty w state ripple :
  entries (heap w) state = Some [] →
  removeRipple state ripple w = Some (state, w).
Proof.
  intros Ha. unfold removeRipple.
  erewrite bind_run.
  2: { unfold findIndex.
       rewrite (bind_run _ _ _ _ _ (getArray_run _ _ _ Ha)). reflexivity. }
  done.
Qed.

Lemma map_from_cancel w ls rs :
  mapM (deref (heap w)) ls = Some rs →
  map_from (λ l, r ← getRipple l; alloc (ORipple (spread_cancelled r))) ls w
  = Some (seq (length (heap w)) (length ls),
          extend w (ORipple ∘ spread_cancelled <$> rs)).
Proof.
  revert w rs. induction ls as [|l ls IH]; intros w rs H.
  - apply mapM_Some, Forall2_nil_inv_l in H as ->. unfold extend. simpl.
    rewrite app_nil_r. by destruct w.
  - apply mapM_Some, Forall2_cons_inv_l in H as (r & rs' & Hl & H & ->).
    apply mapM_Some in H.
    cbn [map_from].
    erewrite bind_run.
    2: { by rewrite (bind_run _ _ _ _ _ (getRipple_run _ _ _ Hl)). }
    erewrite bind_run.
    2: { apply IH. simpl. by apply mapM_deref_app. }
    rewrite ret_run. unfold extend. simpl.
    rewrite length_app, Nat.add_1_r, <- app_assoc. done.
Qed.

Lemma cancelRipples_ease_run w state ls rs :
  entries (heap w) state = Some ls →
  mapM (deref (heap w)) ls = Some rs →
  cancelRipples state true w
  = Some ((length (heap w) + length ls)%nat,
          extend w ((ORipple ∘ spread_cancelled <$> rs)
                    ++ [OArray (seq (length (heap w)) (length ls))])).
Proof.
  intros Ha Hrs. unfold cancelRipples, array_map.
  rewrite (bind_run _ _ _ _ _ (getArray_run _ _ _ Ha)).
  rewrite (bind_run _ _ _ _ _ (map_from_cancel _ _ _ Hrs)).
  unfold alloc, extend. simpl.
  rewrite length_app, length_fmap, (mapM_deref_length _ _ _ Hrs), app_assoc.
  done.
Qed.

Lemma cancelRipples_now_run w state :
  cancelRipples state false w = Some (length (heap w), extend w [OArray []]).
Proof. reflexivity. Qed.

Lemma createRipple_rejected w state event disableSpacebarClick :
  negb (isRippleable event disableSpacebarClick) || isBubbled event = true →
  createRipple state event disableSpacebarClick w = Some (state, w).
Proof. intros H. unfold createRipple. by rewrite H. Qed.

Lemma createRipple_accepted w state event disableSpacebarClick ls rs :
  entries (heap w) state = Some ls →
  mapM (deref (heap w)) ls = Some rs →
  negb (isRippleable event disableSpacebarClick) || isBubbled event = false →
  createRipple state event disableSpacebarClick w
  = Some (if negb (String.eqb (getType event) "touch")
             && bool_decide (Exists (λ r, type r = "touch") rs)
          then (state, w)
          else
            (S (length (heap w)),
             extend w [ORipple (createRippleState event (clock w));
                       OArray (ls ++ [length (heap w)])])).
Proof.
  intros Ha Hrs H. unfold createRipple. rewrite H.
  assert ((now ← Date_now;
           ripple ← alloc (ORipple (createRippleState event now));
           xs ← getArray state;
           alloc (OArray (xs ++ [ripple]))) w
          = Some (S (length (heap w)),
                  extend w [ORipple (createRippleState event (clock w));
                            OArray (ls ++ [length (heap w)])])) as Happend.
  { erewrite bind_run by reflexivity.
    erewrite bind_run by reflexivity.
    erewrite bind_run.
    2: { apply getArray_run. simpl. by apply entries_app. }
    unfold alloc, extend. simpl.
    by rewrite length_app, Nat.add_1_r, <- app_assoc. }
  destruct (negb (String.eqb (getType event) "touch")); simpl.
  - destruct (find_from_run (λ r, String.eqb (type r) "touch")
                (λ l, r ← getRipple l; mret (String.eqb (type r) "touch"))
                w ls rs) as (found & Hf & Hiff); [|done|].
    { intros l r Hl. by rewrite (bind_run _ _ _ _ _ (getRipple_run _ _ _ Hl)). }
    erewrite bind_run.
    2: { erewrite bind_run; [apply ret_run|]. unfold find.
         rewrite (bind_run _ _ _ _ _ (getArray_run _ _ _ Ha)). exact Hf. }
    assert (bool_decide (is_Some found)
            = bool_decide (Exists (λ r, type r = "touch") rs)) as ->.
    { apply bool_decide_ext. rewrite Hiff.
      apply Exists_proper; [|done]. intros r.
      rewrite Is_true_true. apply String.eqb_eq. }
    destruct (bool_decide (Exists _ rs)); [done|]. exact Happend.
  - erewrite bind_run by reflexivity. exact Happend.
Qed.

(** The [default] case of the [switch]. *)
Lemma reducer_default_run w state action :
  action_type action ∉ [CREATE; RELEASE; CANCEL; ENTERED; REMOVE] →
  reducer (Some state) action w = Some (state, w).
Proof.
  intros Hnot.
  assert (∀ t, t ∈ [CREATE; RELEASE; CANCEL; ENTERED; REMOVE] →
               String.eqb (action_type action) t = false) as Hne.
  { intros t Ht. apply String.eqb_neq. by intros <-. }
  unfold reducer. rewrite (bind_run _ _ w state w) by done.
  rewrite !Hne; [done|apply list_elem_of_In; simpl; auto 10..].
Qed.

End Runs.

(** ** The set a transition leaves behind *)

Lemma snapshot_Some h state rs :
  snapshot h state = Some rs
  ↔ ∃ ls, entries h state = Some ls ∧ mapM (deref h) ls = Some rs.
Proof. unfold snapshot. apply bind_Some. Qed.

Lemma snapshot_intro h state ls rs :
  entries h state = Some ls → mapM (deref h) ls = Some rs →
  snapshot h state = Some rs.
Proof. intros. apply snapshot_Some. eauto. Qed.

Lemma mapM_deref_insert h ls rs i l r :
  mapM (deref h) ls = Some rs → deref h l = Some r →
  mapM (deref h) (<[i := l]> ls) = Some (<[i := r]> rs).
Proof. rewrite !mapM_Some. intros H Hl. by apply Forall2_insert. Qed.

Lemma mapM_deref_delete h ls rs i :
  mapM (deref h) ls = Some rs →
  mapM (deref h) (delete i ls) = Some (delete i rs).
Proof. rewrite !mapM_Some. intros H. by apply Forall2_delete. Qed.

Lemma mapM_deref_snoc h ls rs l r :
  mapM (deref h) ls = Some rs → deref h l = Some r →
  mapM (deref h) (ls ++ [l]) = Some (rs ++ [r]).
Proof.
  rewrite !mapM_Some. intros H Hl. apply Forall2_app; [done|].
  by constructor.
Qed.

Lemma mapM_deref_seq h (os : list RippleState) ext :
  mapM (deref (h ++ (ORipple <$> os) ++ ext)) (seq (length h) (length os))
  = Some os.
Proof.
  revert h. induction os as [|r os IH]; intros h; [done|].
  cbn [length seq mapM fmap list_fmap app].
  rewrite deref_new. simpl.
  replace (h ++ ORipple r :: (ORipple <$> os) ++ ext)
    with ((h ++ [ORipple r]) ++ (ORipple <$> os) ++ ext)
    by (by rewrite <- app_assoc).
  replace (S (length h)) with (length (h ++ [ORipple r]))
    by (rewrite length_app; simpl; lia).
  by rewrite IH.
Qed.

(** The set after a RELEASE or an ENTERED that replaced entry [i]. *)
Lemma snapshot_replaced h ls rs i r' :
  mapM (deref h) ls = Some rs →
  snapshot (h ++ [OArray (<[i := S (length h)]> ls); ORipple r']) (length h)
  = Some (<[i := r']> rs).
Proof.
  intros Hrs. eapply snapshot_intro; [apply entries_new|].
  apply mapM_deref_insert; [by apply mapM_deref_app|].
  replace (h ++ [OArray (<[i := S (length h)]> ls); ORipple r'])
    with ((h ++ [OArray (<[i := S (length h)]> ls)]) ++ [ORipple r'])
    by (by rewrite <- app_assoc).
  replace (S (length h)) with (length (h ++ [OArray (<[i := S (length h)]> ls)]))
    at 2 by (rewrite length_app; simpl; lia).
  apply deref_new.
Qed.

Lemma entries_appended h ls r :
  entries (h ++ [ORipple r; OArray (ls ++ [length h])]) (S (length h))
  = Some (ls ++ [length h]).
Proof.
  apply entries_Some.
  change (h ++ [ORipple r; OArray (ls ++ [length h])])
    with (h ++ [ORipple r] ++ [OArray (ls ++ [length h])]).
  rewrite app_assoc. apply list_lookup_middle.
  rewrite length_app. simpl. lia.
Qed.

(** The set after a CREATE that appended [r]. *)
Lemma snapshot_appended h ls rs r :
  mapM (deref h) ls = Some rs →
  snapshot (h ++ [ORipple r; OArray (ls ++ [length h])]) (S (length h))
  = Some (rs ++ [r]).
Proof.
  intros Hrs. eapply snapshot_intro; [apply entries_appended|].
  apply mapM_deref_snoc; [by apply mapM_deref_app|]. apply deref_new.
Qed.

(** ** RELEASE *)

Lemma held_iff r :
  holding r && negb (exiting r) ↔ holding r = true ∧ exiting r = false.
Proof. destruct (holding r), (exiting r); simpl; intuition congruence. Qed.

(** C1. RELEASE picks the first ripple in set order with [holding = true]
    and [exiting = false] and puts in its place a copy with
    [holding = false] and [exiting = entered || now - startTime > 300];
    when no ripple of the set is held and not exiting, RELEASE returns the
    set it was given, and the store is as it was. *)
Theorem releaseRipple_first_held w state rs :
  snapshot (heap w) state = Some rs →
  ((∀ r, r ∈ rs → ¬ (holding r = true ∧ exiting r = false)) →
   releaseRipple state w = Some (state, w))
  ∧ (∀ i r,
       rs !! i = Some r → holding r = true → exiting r = false →
       (∀ j r', rs !! j = Some r' → (j < i)%nat →
                ¬ (holding r' = true ∧ exiting r' = false)) →
       ∃ state' w',
         releaseRipple state w = Some (state', w')
         ∧ snapshot (heap w') state'
           = Some (<[i := {| startTime := startTime r; style := style r;
                             type := type r;
                             holding := false;
                             exiting := entered r
                                        || (clock w - startTime r >? 300);
                             entered := entered r;
                             mounted := mounted r |}]> rs)).
Proof.
  intros (ls & Ha & Hrs)%snapshot_Some.
  pose proof (releaseRipple_run w state ls rs Ha Hrs) as Hrun.
  split.
  - intros Hnone. rewrite Hrun.
    assert (list_find (λ r, holding r && negb (exiting r)) rs = None) as ->; [|done].
    apply list_find_None, Forall_forall. intros r Hr%list_elem_of_In.
    rewrite held_iff. by apply Hnone.
  - intros i r Hr Hh He Hfirst.
    assert (list_find (λ r, holding r && negb (exiting r)) rs = Some (i, r)) as Hf.
    { apply list_find_Some. split; [done|]. split; [by rewrite Hh, He|].
      intros j r' Hj Hlt. rewrite held_iff. by eapply Hfirst. }
    rewrite Hf in Hrun. eexists _, _. split; [exact Hrun|].
    by apply snapshot_replaced.
Qed.

Lemma releaseRipple_first_held_witness :
  ∃ state' w',
    releaseRipple 0%nat {| heap := two_ripples; clock := 150 |} = Some (state', w')
    ∧ snapshot (heap w') state'
      = Some [ {| startTime := 100; style := {| left := 10; top := 20 |};
                  type := "mouse"; holding := true; exiting := true;
                  entered := true; mounted := true |};
               {| startTime := 100; style := {| left := 3; top := 4 |};
                  type := "touch"; holding := false; exiting := false;
                  entered := false; mounted := true |} ].
Proof.
  destruct (releaseRipple_first_held {| heap := two_ripples; clock := 150 |} 0%nat
              _ eq_refl) as [_ H].
  apply (H 1%nat (touch_ripple 100)); [reflexivity..|].
  intros [|[|j]] r' Hr' Hlt; [|lia..].
  injection Hr' as <-. simpl. intros [_ ?]. discriminate.
Defined.

(** ** ENTERED *)

Lemma found_at_first ripple ls i :
  ls !! i = Some ripple → (∀ j, (j < i)%nat → ls !! j ≠ Some ripple) →
  found_at ripple ls = i.
Proof.
  intros Hi Hfirst. unfold found_at.
  assert (list_find (λ l, l = ripple) ls = Some (i, ripple)) as ->; [|done].
  apply list_find_Some. split_and!; [done..|].
  intros j l Hj Hlt ->. by apply (Hfirst j).
Qed.

Lemma found_at_lookup ripple ls :
  ripple ∈ ls → ls !! found_at ripple ls = Some ripple.
Proof.
  intros Hin. unfold found_at.
  destruct (list_find _ ls) as [[i l]|] eqn:Hfind.
  - by apply list_find_Some in Hfind as (Hl & -> & _).
  - apply list_find_None in Hfind. rewrite Forall_forall in Hfind.
    apply list_elem_of_In in Hin. by destruct (Hfind ripple Hin).
Qed.

(** C2. ENTERED(r) returns the set it was given, and leaves the store as
    it was, when no entry of the set is the reference [r] or when
    [r.exiting] is true; otherwise it puts, in the place of the first entry
    that is [r], a copy with [entered = true] and
    [exiting = !r.holding || now - r.startTime > 300]. *)
Theorem enteredRipple_by_reference w state ls rs ripple :
  entries (heap w) state = Some ls →
  mapM (deref (heap w)) ls = Some rs →
  (ripple ∉ ls → enteredRipple state ripple w = Some (state, w))
  ∧ (∀ rp, deref (heap w) ripple = Some rp → exiting rp = true →
       enteredRipple state ripple w = Some (state, w))
  ∧ (∀ i rp,
       ls !! i = Some ripple → (∀ j, (j < i)%nat → ls !! j ≠ Some ripple) →
       deref (heap w) ripple = Some rp → exiting rp = false →
       ∃ state' w',
         enteredRipple state ripple w = Some (state', w')
         ∧ snapshot (heap w') state'
           = Some (<[i := {| startTime := startTime rp; style := style rp;
                             type := type rp;
                             holding := holding rp;
                             exiting := negb (holding rp)
                                        || (clock w - startTime rp >? 300);
                             entered := true;
                             mounted := mounted rp |}]> rs)).
Proof.
  intros Ha Hrs. split_and!.
  - by apply enteredRipple_absent.
  - intros rp Hd He. destruct (decide (ripple ∈ ls)) as [Hin|Hnot].
    + rewrite (enteredRipple_present w state ripple ls rp Ha Hin Hd).
      by rewrite He.
    + by apply enteredRipple_absent with ls.
  - intros i rp Hi Hfirst Hd He.
    assert (ripple ∈ ls) as Hin by (by eapply list_elem_of_lookup_2).
    rewrite (enteredRipple_present w state ripple ls rp Ha Hin Hd), He.
    rewrite (found_at_first _ _ _ Hi Hfirst).
    eexists _, _. split; [done|]. by apply snapshot_replaced.
Qed.

Lemma enteredRipple_by_reference_witness :
  ∃ state' w',
    enteredRipple 0%nat 2%nat {| heap := two_ripples; clock := 150 |}
    = Some (state', w')
    ∧ snapshot (heap w') state'
      = Some [ {| startTime := 100; style := {| left := 10; top := 20 |};
                  type := "mouse"; holding := true; exiting := true;
                  entered := true; mounted := true |};
               {| startTime := 100; style := {| left := 3; top := 4 |};
                  type := "touch"; holding := true; exiting := false;
                  entered := true; mounted := true |} ].
Proof.
  destruct (enteredRipple_by_reference {| heap := two_ripples; clock := 150 |}
              0%nat [1; 2]%nat _ 2%nat eq_refl eq_refl) as (_ & _ & H).
  apply (H 1%nat (touch_ripple 100)); [reflexivity| |reflexivity..].
  intros [|[|j]] Hlt; [discriminate|lia..].
Defined.

(** C8. A ripple of the set created at [t0], still held, not entered and
    not exiting: ENTERED for it at [t0 + 350] puts a copy with
    [exiting = true] in its place, although [holding] is still true. *)
Theorem entered_after_300ms h state ls rs ripple r :
  entries h state = Some ls →
  mapM (deref h) ls = Some rs →
  ripple ∈ ls →
  deref h ripple = Some r →
  holding r = true → entered r = false → exiting r = false →
  ∃ state' w' i,
    enteredRipple state ripple {| heap := h; clock := startTime r + 350 |}
    = Some (state', w')
    ∧ ls !! i = Some ripple
    ∧ snapshot (heap w') state'
      = Some (<[i := {| startTime := startTime r; style := style r;
                        type := type r; holding := true; exiting := true;
                        entered := true; mounted := mounted r |}]> rs).
Proof.
  intros Ha Hrs Hin Hd Hh Hen Hex.
  rewrite (enteredRipple_present {| heap := h; clock := startTime r + 350 |}
             state ripple ls r Ha Hin Hd), Hex.
  eexists _, _, (found_at ripple ls). split; [done|].
  split; [by apply found_at_lookup|].
  simpl. unfold entered_at, spread_entered. simpl. rewrite Hh. simpl.
  replace (startTime r + 350 - startTime r >? 300) with true
    by (symmetry; apply Z.gtb_lt; lia).
  by apply (snapshot_replaced h ls rs).
Qed.

Lemma entered_after_300ms_witness :
  ∃ state' w' i,
    enteredRipple 0%nat 2%nat {| heap := two_ripples; clock := 100 + 350 |}
    = Some (state', w')
    ∧ [1; 2]%nat !! i = Some 2%nat
    ∧ snapshot (heap w') state'
      = Some (<[i := {| startTime := 100; style := {| left := 3; top := 4 |};
                        type := "touch"; holding := true; exiting := true;
                        entered := true; mounted := true |}]>
                [ {| startTime := 100; style := {| left := 10; top := 20 |};
                     type := "mouse"; holding := true; exiting := true;
                     entered := true; mounted := true |};
                  touch_ripple 100 ]).
Proof.
  apply (entered_after_300ms two_ripples 0%nat [1; 2]%nat _ 2%nat
           (touch_ripple 100)); try reflexivity.
  apply list_elem_of_In. simpl. auto.
Defined.

(** C7. The set holds one ripple, created at [t0], held, not entered, not
    exiting.  RELEASE at [t0 + 50] leaves that ripple, all its other fields
    as they were, with [holding = false] and [exiting = false]; ENTERED for
    the updated ripple at [t0 + 60] then leaves it, again with all its
    other fields as they were, with [entered = true] and
    [exiting = true]. *)
Theorem release_then_entered h state ripple r :
  entries h state = Some [ripple] →
  deref h ripple = Some r →
  holding r = true → entered r = false → exiting r = false →
  ∃ state1 w1 ripple1,
    releaseRipple state {| heap := h; clock := startTime r + 50 |}
    = Some (state1, w1)
    ∧ entries (heap w1) state1 = Some [ripple1]
    ∧ snapshot (heap w1) state1
      = Some [ {| startTime := startTime r; style := style r;
                  type := type r; holding := false; exiting := false;
                  entered := false; mounted := mounted r |} ]
    ∧ ∃ state2 w2,
        enteredRipple state1 ripple1
          {| heap := heap w1; clock := startTime r + 60 |}
        = Some (state2, w2)
        ∧ snapshot (heap w2) state2
          = Some [ {| startTime := startTime r; style := style r;
                      type := type r; holding := false; exiting := true;
                      entered := true; mounted := mounted r |} ].
Proof.
  intros Ha Hd Hh Hen Hex.
  assert (mapM (deref h) [ripple] = Some [r]) as Hrs by (simpl; by rewrite Hd).
  pose proof (releaseRipple_run {| heap := h; clock := startTime r + 50 |}
                state [ripple] [r] Ha Hrs) as Hrun.
  cbn [list_find] in Hrun. rewrite decide_True in Hrun by (by rewrite Hh, Hex).
  simpl in Hrun.
  set (r1 := {| startTime := startTime r; style := style r; type := type r;
                holding := false; exiting := false; entered := false;
                mounted := mounted r |}).
  assert (released (startTime r + 50) r = r1) as Hr1.
  { unfold released, spread_released, r1. rewrite Hen. simpl.
    replace (startTime r + 50 - startTime r >? 300) with false; [done|].
    symmetry. rewrite Z.gtb_ltb. apply Z.ltb_ge. lia. }
  rewrite Hr1 in Hrun.
  set (h1 := h ++ [OArray [S (length h)]; ORipple r1]) in *.
  assert (entries h1 (length h) = Some [S (length h)]) as Ha1
    by apply entries_new.
  assert (deref h1 (S (length h)) = Some r1) as Hd1.
  { unfold h1. change (h ++ [OArray [S (length h)]; ORipple r1])
      with (h ++ [OArray [S (length h)]] ++ [ORipple r1]).
    rewrite app_assoc.
    replace (S (length h)) with (length (h ++ [OArray [S (length h)]])) at 2
      by (rewrite length_app; simpl; lia).
    apply deref_new. }
  assert (mapM (deref h1) [S (length h)] = Some [r1]) as Hrs1
    by (simpl; by rewrite Hd1).
  exists (length h), (extend {| heap := h; clock := startTime r + 50 |}
                        [OArray [S (length h)]; ORipple r1]),
    (S (length h)).
  split; [exact Hrun|]. split; [exact Ha1|].
  split; [by eapply snapshot_intro|].
  assert (S (length h) ∈ [S (length h)]) as Hin by apply list_elem_of_here.
  pose proof (enteredRipple_present {| heap := h1; clock := startTime r + 60 |}
                (length h) (S (length h)) [S (length h)] r1 Ha1 Hin Hd1) as Hrun2.
  change (exiting r1) with false in Hrun2.
  rewrite (found_at_first (S (length h)) [S (length h)] 0) in Hrun2
    by (done || lia).
  eexists (length h1), _. split; [exact Hrun2|].
  exact (snapshot_replaced h1 [S (length h)] [r1] 0
           (entered_at (startTime r + 60) r1) Hrs1).
Qed.

Lemma release_then_entered_witness :
  ∃ state1 w1 ripple1,
    releaseRipple 0%nat {| heap := one_ripple; clock := 1000 + 50 |}
    = Some (state1, w1)
    ∧ entries (heap w1) state1 = Some [ripple1]
    ∧ snapshot (heap w1) state1
      = Some [ {| startTime := 1000; style := {| left := 10; top := 20 |};
                  type := "mouse"; holding := false; exiting := false;
                  entered := false; mounted := true |} ]
    ∧ ∃ state2 w2,
        enteredRipple state1 ripple1 {| heap := heap w1; clock := 1000 + 60 |}
        = Some (state2, w2)
        ∧ snapshot (heap w2) state2
          = Some [ {| startTime := 1000; style := {| left := 10; top := 20 |};
                      type := "mouse"; holding := false; exiting := true;
                      entered := true; mounted := true |} ].
Proof.
  apply (release_then_entered one_ripple 0%nat 1%nat (mouse_ripple 1000));
    reflexivity.
Defined.

(** ** CANCEL *)

Lemma snapshot_cancelled h (ls : list loc) (rs : list RippleState) :
  length ls = length rs →
  snapshot (h ++ (ORipple ∘ spread_cancelled <$> rs)
              ++ [OArray (seq (length h) (length ls))])
    (length h + length ls)%nat
  = Some (spread_cancelled <$> rs).
Proof.
  intros Hlen. rewrite list_fmap_compose. eapply snapshot_intro.
  - rewrite app_assoc. apply entries_Some, list_lookup_middle.
    by rewrite length_app, !length_fmap, Hlen.
  - rewrite Hlen, <- (length_fmap spread_cancelled rs).
    apply mapM_deref_seq.
Qed.

(** C4. CANCEL with [ease = true] returns a set as long as the one it was
    given, whose i-th ripple is the i-th ripple given with
    [exiting = true], [holding = false] and [mounted = true]; CANCEL with
    [ease = false] returns the empty set whatever it was given. *)
Theorem cancelRipples_ease_or_clear w state :
  (∀ rs, snapshot (heap w) state = Some rs →
     ∃ state' w' rs',
       cancelRipples state true w = Some (state', w')
       ∧ snapshot (heap w') state' = Some rs'
       ∧ length rs' = length rs
       ∧ ∀ i r, rs !! i = Some r →
           rs' !! i = Some {| startTime := startTime r; style := style r;
                              type := type r;
                              holding := false; exiting := true;
                              entered := entered r; mounted := true |})
  ∧ (∃ state' w',
       cancelRipples state false w = Some (state', w')
       ∧ snapshot (heap w') state' = Some []).
Proof.
  split.
  - intros rs (ls & Ha & Hrs)%snapshot_Some.
    rewrite (cancelRipples_ease_run w state ls rs Ha Hrs).
    eexists _, _, (spread_cancelled <$> rs). split; [done|]. split_and!.
    + apply snapshot_cancelled. symmetry. by eapply mapM_deref_length.
    + apply length_fmap.
    + intros i r Hr. by rewrite list_lookup_fmap, Hr.
  - rewrite cancelRipples_now_run. eexists _, _. split; [done|].
    eapply snapshot_intro; [apply entries_new|done].
Qed.

Lemma cancelRipples_ease_or_clear_witness :
  (∃ state' w',
     cancelRipples 0%nat true {| heap := two_ripples; clock := 150 |}
     = Some (state', w')
     ∧ snapshot (heap w') state'
       = Some [ {| startTime := 100; style := {| left := 10; top := 20 |};
                   type := "mouse"; holding := false; exiting := true;
                   entered := true; mounted := true |};
                {| startTime := 100; style := {| left := 3; top := 4 |};
                   type := "touch"; holding := false; exiting := true;
                   entered := false; mounted := true |} ])
  ∧ (∃ state' w',
       cancelRipples 0%nat false {| heap := two_ripples; clock := 150 |}
       = Some (state', w')
       ∧ snapshot (heap w') state' = Some []).
Proof.
  destruct (cancelRipples_ease_or_clear {| heap := two_ripples; clock := 150 |}
              0%nat) as [H1 H2].
  split; [|exact H2].
  destruct (H1 _ eq_refl) as (state' & w' & rs' & Hrun & Hsnap & Hlen & Hi).
  exists state', w'. split; [done|]. rewrite Hsnap. f_equal.
  destruct rs' as [|a [|b [|c rs']]]; try discriminate.
  pose proof (Hi 0%nat _ eq_refl) as H0. pose proof (Hi 1%nat _ eq_refl) as H1'.
  simpl in H0, H1'. by simplify_eq.
Defined.

(** ** REMOVE *)

(** C5, as the specification states it, fails: the second REMOVE of a
    ripple is not always without effect.  Two ripples of the set carry the
    same [startTime]; the first REMOVE takes out the first of them, the
    second REMOVE, for the same ripple, takes out the other. *)
Lemma second_remove_not_noop :
  ¬ (∀ w state ripple state1 w1,
       is_Some (snapshot (heap w) state) →
       is_Some (deref (heap w) ripple) →
       removeRipple state ripple w = Some (state1, w1) →
       snapshot (heap w1) state1 ≠ snapshot (heap w) state →
       ∃ state2 w2,
         removeRipple state1 ripple w1 = Some (state2, w2)
         ∧ snapshot (heap w2) state2 = snapshot (heap w1) state1).
Proof.
  intros H.
  destruct (H {| heap := two_ripples; clock := 200 |} 0%nat 1%nat
              3%nat {| heap := two_ripples ++ [OArray [2%nat]]; clock := 200 |})
    as (state2 & w2 & Hrun & Hsnap).
  - by eexists.
  - by eexists.
  - reflexivity.
  - discriminate.
  - vm_compute in Hrun. injection Hrun as <- <-. discriminate Hsnap.
Qed.

(** C5, amended.  REMOVE(r) takes out the first entry whose [startTime]
    is [r.startTime] and keeps the others in their order; it returns the
    set it was given when no entry has that [startTime].  A second
    REMOVE of the same ripple after the first took an entry out returns
    the set it was given provided no entry left has that [startTime],
    and so does a REMOVE on the set CANCEL with [ease = false] returned;
    none of them fails. *)
Theorem removeRipple_by_startTime w state ls rs ripple rp :
  entries (heap w) state = Some ls →
  mapM (deref (heap w)) ls = Some rs →
  deref (heap w) ripple = Some rp →
  ((∀ r, r ∈ rs → startTime r ≠ startTime rp) →
   removeRipple state ripple w = Some (state, w))
  ∧ (∀ i r,
       rs !! i = Some r → startTime r = startTime rp →
       (∀ j r', rs !! j = Some r' → (j < i)%nat →
                startTime r' ≠ startTime rp) →
       ∃ state' w',
         removeRipple state ripple w = Some (state', w')
         ∧ entries (heap w') state' = Some (delete i ls)
         ∧ snapshot (heap w') state' = Some (delete i rs)
         ∧ ((∀ r', r' ∈ delete i rs → startTime r' ≠ startTime rp) →
            removeRipple state' ripple w' = Some (state', w')))
  ∧ (∃ state' w',
       cancelRipples state false w = Some (state', w')
       ∧ ∀ ripple', removeRipple state' ripple' w' = Some (state', w')).
Proof.
  intros Ha Hrs Hd.
  assert (∀ w ls rs state,
            entries (heap w) state = Some ls →
            mapM (deref (heap w)) ls = Some rs →
            deref (heap w) ripple = Some rp →
            (∀ r, r ∈ rs → startTime r ≠ startTime rp) →
            removeRipple state ripple w = Some (state, w)) as Hnoop.
  { clear. intros w ls rs state Ha Hrs Hd Hnone.
    rewrite (removeRipple_run w state ripple ls rs rp Ha Hrs Hd).
    assert (list_find (λ r, startTime r = startTime rp) rs = None) as ->; [|done].
    apply list_find_None, Forall_forall. intros r Hr%list_elem_of_In.
    by apply Hnone. }
  split_and!.
  - intros Hnone. by apply (Hnoop w ls rs).
  - intros i r Hr Hst Hfirst.
    pose proof (removeRipple_run w state ripple ls rs rp Ha Hrs Hd) as Hrun.
    assert (list_find (λ r, startTime r = startTime rp) rs = Some (i, r)) as Hf.
    { apply list_find_Some. split_and!; [done..|].
      intros j r' Hj Hlt. by eapply Hfirst. }
    rewrite Hf in Hrun. eexists _, _. split; [exact Hrun|].
    assert (mapM (deref (heap (extend w [OArray (delete i ls)]))) (delete i ls)
            = Some (delete i rs)) as Hrs'.
    { simpl. by apply mapM_deref_app, mapM_deref_delete. }
    assert (entries (heap (extend w [OArray (delete i ls)])) (length (heap w))
            = Some (delete i ls)) as Ha' by apply entries_new.
    split_and!; [done|by eapply snapshot_intro|].
    intros Hnone. apply (Hnoop _ (delete i ls) (delete i rs)); [done..| |done].
    simpl. by apply deref_app.
  - rewrite cancelRipples_now_run. eexists _, _. split; [done|].
    intros ripple'. apply removeRipple_empty. apply entries_new.
Qed.

Lemma removeRipple_by_startTime_witness :
  ∃ state' w',
    removeRipple 0%nat 2%nat {| heap := one_ripple ++ [ORipple (touch_ripple 1000)];
                                clock := 1500 |}
    = Some (state', w')
    ∧ entries (heap w') state' = Some []
    ∧ snapshot (heap w') state' = Some []
    ∧ removeRipple state' 2%nat w' = Some (state', w').
Proof.
  destruct (removeRipple_by_startTime
              {| heap := one_ripple ++ [ORipple (touch_ripple 1000)];
                 clock := 1500 |}
              0%nat [1%nat] [mouse_ripple 1000] 2%nat (touch_ripple 1000)
              eq_refl eq_refl eq_refl) as (_ & H & _).
  destruct (H 0%nat (mouse_ripple 1000) eq_refl eq_refl)
    as (state' & w' & Hrun & Ha & Hsnap & Hagain).
  { intros j r' _ Hlt. lia. }
  exists state', w'. split_and!; [done..|].
  apply Hagain. simpl. intros r' Hr'. by apply not_elem_of_nil in Hr'.
Defined.

(** ** CREATE *)

(** C3. CREATE returns the set it was given, and leaves the store as it
    was, when [isRippleable] rejects the event, when [isBubbled] accepts
    it, or when the modality of the event is not touch while a ripple of
    the set has modality touch; in every other case it returns a set with
    the entries it was given, unchanged and in their order, and one new
    ripple, the one [createRippleState] builds, after them.  This holds
    for every implementation of the four helpers; with [isBubbled] as the
    specification describes it, an event whose [target] is not its
    [currentTarget] leaves the set as it was. *)
Theorem createRipple_appends_or_not `{U : RippleUtils}
    w state ls rs event disableSpacebarClick :
  entries (heap w) state = Some ls →
  mapM (deref (heap w)) ls = Some rs →
  ((isRippleable event disableSpacebarClick = false
    ∨ isBubbled event = true
    ∨ (getType event ≠ "touch" ∧ ∃ r, r ∈ rs ∧ type r = "touch")) →
   createRipple state event disableSpacebarClick w = Some (state, w))
  ∧ (¬ (isRippleable event disableSpacebarClick = false
        ∨ isBubbled event = true
        ∨ (getType event ≠ "touch" ∧ ∃ r, r ∈ rs ∧ type r = "touch")) →
     ∃ state' w' ripple,
       createRipple state event disableSpacebarClick w = Some (state', w')
       ∧ is_new w ripple
       ∧ unmutated w w'
       ∧ entries (heap w') state' = Some (ls ++ [ripple])
       ∧ snapshot (heap w') state'
         = Some (rs ++ [createRippleState event (clock w)]))
  ∧ (ev_target event ≠ ev_currentTarget event →
     @createRipple spec_utils state event disableSpacebarClick w
     = Some (state, w)).
Proof.
  intros Ha Hrs.
  assert (negb (String.eqb (getType event) "touch")
            && bool_decide (Exists (λ r, type r = "touch") rs) = true
          ↔ getType event ≠ "touch" ∧ ∃ r, r ∈ rs ∧ type r = "touch") as Hblocked.
  { rewrite andb_true_iff, negb_true_iff, String.eqb_neq, bool_decide_eq_true.
    rewrite Exists_exists. by setoid_rewrite list_elem_of_In. }
  split_and!.
  - intros Hrej.
    destruct (negb (isRippleable event disableSpacebarClick) || isBubbled event)
      eqn:Hguard; [by apply createRipple_rejected|].
    apply orb_false_iff in Hguard as [Hr%negb_false_iff Hb].
    rewrite (createRipple_accepted w state event _ ls rs Ha Hrs)
      by (by rewrite Hr, Hb).
    destruct Hrej as [?|[?|Hrej]]; [congruence..|].
    apply Hblocked in Hrej. by rewrite Hrej.
  - intros Hacc.
    assert (negb (isRippleable event disableSpacebarClick) || isBubbled event
            = false) as Hguard.
    { apply orb_false_iff. rewrite negb_false_iff.
      destruct (isRippleable event disableSpacebarClick), (isBubbled event);
        try done; destruct Hacc; auto. }
    rewrite (createRipple_accepted w state event _ ls rs Ha Hrs Hguard).
    assert (negb (String.eqb (getType event) "touch")
              && bool_decide (Exists (λ r, type r = "touch") rs) = false) as ->.
    { apply not_true_is_false. intros Hb%Hblocked. destruct Hacc. auto. }
    eexists _, _, (length (heap w)). split; [done|]. split_and!.
    + by apply lookup_ge_None.
    + intros l o Hl. simpl. by apply lookup_app_l_Some.
    + apply entries_appended.
    + by apply snapshot_appended.
  - intros Hne. apply (@createRipple_rejected spec_utils).
    simpl. unfold spec_isBubbled. rewrite bool_decide_false by done.
    apply orb_true_r.
Qed.

Lemma createRipple_appends_or_not_witness :
  ∃ state' w' ripple,
    @createRipple spec_utils 0%nat (ev_touch 1%positive) false
      {| heap := one_ripple; clock := 2000 |}
    = Some (state', w')
    ∧ is_new {| heap := one_ripple; clock := 2000 |} ripple
    ∧ unmutated {| heap := one_ripple; clock := 2000 |} w'
    ∧ entries (heap w') state' = Some ([1%nat] ++ [ripple])
    ∧ snapshot (heap w') state'
      = Some ([mouse_ripple 1000] ++ [touch_ripple 2000]).
Proof.
  destruct (@createRipple_appends_or_not spec_utils
              {| heap := one_ripple; clock := 2000 |} 0%nat
              [1%nat] [mouse_ripple 1000] (ev_touch 1%positive) false
              eq_refl eq_refl) as (_ & H & _).
  apply H. intros [?|[?|[? _]]]; [discriminate..|done].
Defined.

(** ** The reducer *)

(** C10. An action whose [type] is none of CREATE, RELEASE, CANCEL,
    ENTERED and REMOVE makes the reducer return the state it was given,
    the same reference, and nothing of the store changes. *)
Theorem reducer_unknown_action `{U : RippleUtils} w state action :
  action_type action ∉ [CREATE; RELEASE; CANCEL; ENTERED; REMOVE] →
  reducer (Some state) action w = Some (state, w).
Proof. apply reducer_default_run. Qed.

Lemma reducer_unknown_action_witness :
  @reducer spec_utils (Some 0%nat) (UnknownAction "RESET")
    {| heap := two_ripples; clock := 150 |}
  = Some (0%nat, {| heap := two_ripples; clock := 150 |}).
Proof.
  apply (@reducer_unknown_action spec_utils).
  simpl. intros H%list_elem_of_In. simpl in H.
  repeat destruct H as [H|H]; try discriminate H. done.
Defined.

(** ** Purity *)

Lemma unmutated_extend w ext : unmutated w (extend w ext).
Proof. intros l o Hl. simpl. by apply lookup_app_l_Some. Qed.

Lemma unmutated_refl w : unmutated w w.
Proof. by intros l o Hl. Qed.

Lemma is_new_ge w l : (length (heap w) ≤ l)%nat → is_new w l.
Proof. apply lookup_ge_None. Qed.

(** C9. RELEASE, ENTERED, REMOVE and CANCEL change nothing that was in
    the store, the array they were given included; what they return is
    the reference they were given, with the store as it was, or the
    reference of an array the store did not have.  The array RELEASE and
    ENTERED return holds, at every index but the one replaced, the very
    reference the array given holds there. *)
Theorem transitions_pure w state ls rs :
  entries (heap w) state = Some ls →
  mapM (deref (heap w)) ls = Some rs →
  (∃ state' w',
     releaseRipple state w = Some (state', w')
     ∧ unmutated w w'
     ∧ ((state' = state ∧ w' = w)
        ∨ (is_new w state'
           ∧ ∃ i ls', entries (heap w') state' = Some ls'
                      ∧ length ls' = length ls
                      ∧ ∀ j, j ≠ i → ls' !! j = ls !! j)))
  ∧ (∀ ripple,
       ∃ state' w',
         enteredRipple state ripple w = Some (state', w')
         ∧ unmutated w w'
         ∧ ((state' = state ∧ w' = w)
            ∨ (is_new w state'
               ∧ ∃ i ls', entries (heap w') state' = Some ls'
                          ∧ length ls' = length ls
                          ∧ ∀ j, j ≠ i → ls' !! j = ls !! j)))
  ∧ (∀ ripple,
       is_Some (deref (heap w) ripple) →
       ∃ state' w',
         removeRipple state ripple w = Some (state', w')
         ∧ unmutated w w'
         ∧ ((state' = state ∧ w' = w) ∨ is_new w state'))
  ∧ (∀ ease,
       ∃ state' w',
         cancelRipples state ease w = Some (state', w')
         ∧ unmutated w w'
         ∧ is_new w state').
Proof.
  intros Ha Hrs.
  assert (∀ i v r',
            is_new w (length (heap w))
            ∧ ∃ i' ls',
                entries (heap (extend w [OArray (<[i := v]> ls); ORipple r']))
                  (length (heap w)) = Some ls'
                ∧ length ls' = length ls
                ∧ ∀ j, j ≠ i' → ls' !! j = ls !! j) as Hreplaced.
  { intros i v r'. split; [by apply is_new_ge|].
    exists i, (<[i := v]> ls). split_and!.
    - apply entries_new.
    - apply length_insert.
    - intros j Hj. by apply list_lookup_insert_ne. }
  split_and!.
  - rewrite (releaseRipple_run w state ls rs Ha Hrs).
    destruct (list_find _ rs) as [[i r]|].
    + eexists _, _. split; [done|]. split; [apply unmutated_extend|].
      right. apply Hreplaced.
    + exists state, w. split_and!; [done|apply unmutated_refl|by left].
  - intros ripple. destruct (decide (ripple ∈ ls)) as [Hin|Hnot].
    + destruct (list_elem_of_lookup_1 _ _ Hin) as [i Hi].
      apply mapM_Some in Hrs.
      destruct (Forall2_lookup_l _ _ _ _ _ Hrs Hi) as (rp & _ & Hd).
      apply mapM_Some in Hrs.
      rewrite (enteredRipple_present w state ripple ls rp Ha Hin Hd).
      destruct (exiting rp).
      * exists state, w. split_and!; [done|apply unmutated_refl|by left].
      * eexists _, _. split; [done|]. split; [apply unmutated_extend|].
        right. apply Hreplaced.
    + rewrite (enteredRipple_absent w state ripple ls Ha Hnot).
      exists state, w. split_and!; [done|apply unmutated_refl|by left].
  - intros ripple [rp Hd].
    rewrite (removeRipple_run w state ripple ls rs rp Ha Hrs Hd).
    destruct (list_find _ rs) as [[i r]|].
    + eexists _, _. split; [done|]. split; [apply unmutated_extend|].
      right. by apply is_new_ge.
    + exists state, w. split_and!; [done|apply unmutated_refl|by left].
  - intros [|].
    + rewrite (cancelRipples_ease_run w state ls rs Ha Hrs).
      eexists _, _. split; [done|]. split; [apply unmutated_extend|].
      apply is_new_ge. lia.
    + rewrite cancelRipples_now_run.
      eexists _, _. split; [done|]. split; [apply unmutated_extend|].
      by apply is_new_ge.
Qed.

Lemma transitions_pure_witness :
  ∃ state' w',
    releaseRipple 0%nat {| heap := two_ripples; clock := 150 |} = Some (state', w')
    ∧ unmutated {| heap := two_ripples; clock := 150 |} w'
    ∧ ((state' = 0%nat ∧ w' = {| heap := two_ripples; clock := 150 |})
       ∨ (is_new {| heap := two_ripples; clock := 150 |} state'
          ∧ ∃ i ls', entries (heap w') state' = Some ls'
                     ∧ length ls' = length [1; 2]%nat
                     ∧ ∀ j, j ≠ i → ls' !! j = [1; 2]%nat !! j)).
Proof.
  destruct (transitions_pure {| heap := two_ripples; clock := 150 |} 0%nat
              [1; 2]%nat _ eq_refl eq_refl) as (H & _).
  exact H.
Defined.

(** ** The touch and mouse exclusion over sequences of events *)

(** A set whose ripples are, in order and by modality, among those of a
    set with the exclusion has it too. *)
Lemma touch_last_embed rs rs' (f : nat → nat) :
  (∀ i j, (i < j)%nat → (f i < f j)%nat) →
  (∀ i x, rs' !! i = Some x → ∃ y, rs !! f i = Some y ∧ type y = type x) →
  touch_last rs → touch_last rs'.
Proof.
  intros Hmono Hf Hrs i j ri rj Hlt Hi Hj Hti.
  destruct (Hf _ _ Hi) as (yi & Hyi & Htyi).
  destruct (Hf _ _ Hj) as (yj & Hyj & Htyj).
  rewrite <- Htyj. apply (Hrs (f i) (f j) yi yj); [by apply Hmono|done..|].
  by rewrite Htyi.
Qed.

Lemma touch_last_nil : touch_last [].
Proof. intros i j ri rj _ Hi. by rewrite lookup_nil in Hi. Qed.

Lemma touch_last_insert rs i r r' :
  rs !! i = Some r → type r' = type r → touch_last rs →
  touch_last (<[i := r']> rs).
Proof.
  intros Hi Hty. apply (touch_last_embed rs _ id); [done|].
  intros j x [(-> & -> & _)|[Hne Hj]]%list_lookup_insert_Some; simpl; eauto.
Qed.

Lemma touch_last_delete rs i : touch_last rs → touch_last (delete i rs).
Proof.
  apply (touch_last_embed rs _ (λ j, if decide (j < i)%nat then j else S j)).
  - intros j k Hlt. repeat case_decide; lia.
  - intros j x Hj. rewrite list_lookup_delete in Hj. eauto.
Qed.

Lemma touch_last_cancelled rs :
  touch_last rs → touch_last (spread_cancelled <$> rs).
Proof.
  apply (touch_last_embed rs _ id); [done|].
  intros j x (y & -> & Hy)%list_lookup_fmap_Some. simpl. eauto.
Qed.

Lemma touch_last_snoc rs r :
  type r = "touch" ∨ ¬ Exists (λ r0, type r0 = "touch") rs →
  touch_last rs → touch_last (rs ++ [r]).
Proof.
  intros Hr Hrs i j ri rj Hlt Hi Hj Hti.
  apply lookup_snoc_Some in Hi as [[Hilt Hi]|[-> <-]].
  2: { apply lookup_lt_Some in Hj. rewrite length_app in Hj. simpl in Hj. lia. }
  apply lookup_snoc_Some in Hj as [[_ Hj]|[_ <-]].
  - by apply (Hrs i j ri rj).
  - destruct Hr as [?|Hnone]; [done|]. destruct Hnone.
    apply Exists_exists. exists ri. split; [|done].
    by eapply list_elem_of_In, list_elem_of_lookup_2.
Qed.

Lemma mapM_deref_lookup_l h ls rs i l r :
  mapM (deref h) ls = Some rs → ls !! i = Some l → deref h l = Some r →
  rs !! i = Some r.
Proof.
  intros H%mapM_Some Hl Hd.
  destruct (Forall2_lookup_l _ _ _ _ _ H Hl) as (r' & Hr' & Hd').
  congruence.
Qed.

(** REMOVE for a reference that is no ripple of the store, on a set that
    is not empty, is a run the typed program does not have. *)
Lemma removeRipple_dangling w state ripple l ls r :
  entries (heap w) state = Some (l :: ls) →
  deref (heap w) l = Some r →
  deref (heap w) ripple = None →
  removeRipple state ripple w = None.
Proof.
  intros Ha Hl Hd. unfold removeRipple, findIndex.
  unfold mbind at 1, M_bind.
  rewrite (bind_run _ _ _ _ _ (getArray_run _ _ _ Ha)).
  cbn [findIndex_from]. unfold mbind at 1, M_bind.
  rewrite (bind_run _ _ _ _ _ (getRipple_run _ _ _ Hl)).
  unfold mbind, M_bind, getRipple. unfold deref in Hd.
  by destruct (heap w !! ripple) as [[]|].
Qed.

Section Exclusion.
Context `{U : RippleUtils}.

(** The ripple [createRippleState] builds has the modality [getType]
    gives the event. *)
Hypothesis created_type :
  ∀ event now, type (createRippleState event now) = getType event.

Lemma createRipple_ok w state event disableSpacebarClick state' w' :
  ripple_set_ok (heap w) state →
  createRipple state event disableSpacebarClick w = Some (state', w') →
  ripple_set_ok (heap w') state'.
Proof.
  intros (rs & Hsnap & Htl) Hrun.
  pose proof Hsnap as (ls & Ha & Hrs)%snapshot_Some.
  destruct (negb (isRippleable event disableSpacebarClick) || isBubbled event)
    eqn:Hguard.
  { rewrite createRipple_rejected in Hrun by done.
    injection Hrun as <- <-. by exists rs. }
  rewrite (createRipple_accepted w state event _ ls rs Ha Hrs Hguard) in Hrun.
  destruct (negb (String.eqb (getType event) "touch")
            && bool_decide (Exists (λ r, type r = "touch") rs)) eqn:Hb.
  { injection Hrun as <- <-. by exists rs. }
  injection Hrun as <- <-.
  exists (rs ++ [createRippleState event (clock w)]).
  split; [by apply snapshot_appended|].
  apply touch_last_snoc; [|done].
  apply andb_false_iff in Hb as [Ht|Hex].
  - left. rewrite created_type. apply String.eqb_eq.
    by apply negb_false_iff in Ht.
  - right. by apply bool_decide_eq_false in Hex.
Qed.

Lemma releaseRipple_ok w state state' w' :
  ripple_set_ok (heap w) state →
  releaseRipple state w = Some (state', w') →
  ripple_set_ok (heap w') state'.
Proof.
  intros (rs & Hsnap & Htl) Hrun.
  pose proof Hsnap as (ls & Ha & Hrs)%snapshot_Some.
  rewrite (releaseRipple_run w state ls rs Ha Hrs) in Hrun.
  destruct (list_find _ rs) as [[i r]|] eqn:Hfind.
  - injection Hrun as <- <-. apply list_find_Some in Hfind as (Hr & _ & _).
    exists (<[i := released (clock w) r]> rs).
    split; [by apply snapshot_replaced|]. by apply touch_last_insert with r.
  - injection Hrun as <- <-. by exists rs.
Qed.

Lemma enteredRipple_ok w state ripple state' w' :
  ripple_set_ok (heap w) state →
  enteredRipple state ripple w = Some (state', w') →
  ripple_set_ok (heap w') state'.
Proof.
  intros (rs & Hsnap & Htl) Hrun.
  pose proof Hsnap as (ls & Ha & Hrs)%snapshot_Some.
  destruct (decide (ripple ∈ ls)) as [Hin|Hnot].
  2: { rewrite (enteredRipple_absent w state ripple ls Ha Hnot) in Hrun.
       injection Hrun as <- <-. by exists rs. }
  pose proof (found_at_lookup _ _ Hin) as Hi.
  pose proof Hrs as HF%mapM_Some.
  destruct (Forall2_lookup_l _ _ _ _ _ HF Hi) as (rp & Hrp & Hd).
  rewrite (enteredRipple_present w state ripple ls rp Ha Hin Hd) in Hrun.
  destruct (exiting rp).
  - injection Hrun as <- <-. by exists rs.
  - injection Hrun as <- <-.
    exists (<[found_at ripple ls := entered_at (clock w) rp]> rs).
    split; [by apply snapshot_replaced|]. by apply touch_last_insert with rp.
Qed.

Lemma removeRipple_ok w state ripple state' w' :
  ripple_set_ok (heap w) state →
  removeRipple state ripple w = Some (state', w') →
  ripple_set_ok (heap w') state'.
Proof.
  intros (rs & Hsnap & Htl) Hrun.
  pose proof Hsnap as (ls & Ha & Hrs)%snapshot_Some.
  destruct (deref (heap w) ripple) as [rp|] eqn:Hd.
  - rewrite (removeRipple_run w state ripple ls rs rp Ha Hrs Hd) in Hrun.
    destruct (list_find _ rs) as [[i r]|].
    + injection Hrun as <- <-. exists (delete i rs).
      split; [|by apply touch_last_delete].
      eapply snapshot_intro; [apply entries_new|].
      by apply mapM_deref_app, mapM_deref_delete.
    + injection Hrun as <- <-. by exists rs.
  - destruct ls as [|l ls].
    + rewrite removeRipple_empty in Hrun by done.
      injection Hrun as <- <-. by exists rs.
    + apply mapM_Some, Forall2_cons_inv_l in Hrs as (r & rs' & Hl & _ & _).
      by rewrite (removeRipple_dangling w state ripple l ls r) in Hrun.
Qed.

Lemma cancelRipples_ok w state ease state' w' :
  ripple_set_ok (heap w) state →
  cancelRipples state ease w = Some (state', w') →
  ripple_set_ok (heap w') state'.
Proof.
  intros (rs & Hsnap & Htl) Hrun.
  pose proof Hsnap as (ls & Ha & Hrs)%snapshot_Some.
  destruct ease.
  - rewrite (cancelRipples_ease_run w state ls rs Ha Hrs) in Hrun.
    injection Hrun as <- <-. exists (spread_cancelled <$> rs).
    split; [|by apply touch_last_cancelled].
    apply snapshot_cancelled. symmetry. by eapply mapM_deref_length.
  - rewrite cancelRipples_now_run in Hrun. injection Hrun as <- <-.
    exists []. split; [|apply touch_last_nil].
    eapply snapshot_intro; [apply entries_new|done].
Qed.

Lemma reducer_ok w state action state' w' :
  ripple_set_ok (heap w) state →
  reducer (Some state) action w = Some (state', w') →
  ripple_set_ok (heap w') state'.
Proof.
  intros Hok. unfold reducer. rewrite (bind_run _ _ w state w) by done.
  destruct action as [event d|event|ease|ripple|ripple|t];
    cbn [action_type].
  - apply createRipple_ok, Hok.
  - apply releaseRipple_ok, Hok.
  - apply cancelRipples_ok, Hok.
  - apply enteredRipple_ok, Hok.
  - apply removeRipple_ok, Hok.
  - destruct (String.eqb t CREATE); [done|].
    destruct (String.eqb t RELEASE); [apply releaseRipple_ok, Hok|].
    destruct (String.eqb t CANCEL); [done|].
    destruct (String.eqb t ENTERED); [done|].
    destruct (String.eqb t REMOVE); [done|].
    intros [= <- <-]. done.
Qed.

Lemma reducer_total w state action :
  ripple_set_ok (heap w) state →
  action_typed (heap w) action →
  is_Some (reducer (Some state) action w).
Proof.
  intros (rs & (ls & Ha & Hrs)%snapshot_Some & _) Hty.
  destruct action as [event d|event|ease|ripple|ripple|t].
  - unfold reducer. rewrite (bind_run _ _ w state w) by done.
    cbn [action_type].
    change (is_Some (createRipple state event d w)).
    destruct (negb (isRippleable event d) || isBubbled event) eqn:Hguard.
    + by rewrite createRipple_rejected.
    + by rewrite (createRipple_accepted w state event _ ls rs Ha Hrs Hguard).
  - unfold reducer. rewrite (bind_run _ _ w state w) by done.
    change (is_Some (releaseRipple state w)).
    by rewrite (releaseRipple_run w state ls rs Ha Hrs).
  - unfold reducer. rewrite (bind_run _ _ w state w) by done.
    change (is_Some (cancelRipples state ease w)).
    destruct ease.
    + by rewrite (cancelRipples_ease_run w state ls rs Ha Hrs).
    + by rewrite cancelRipples_now_run.
  - unfold reducer. rewrite (bind_run _ _ w state w) by done.
    change (is_Some (enteredRipple state ripple w)).
    destruct Hty as [rp Hd].
    destruct (decide (ripple ∈ ls)) as [Hin|Hnot].
    + by rewrite (enteredRipple_present w state ripple ls rp Ha Hin Hd).
    + by rewrite (enteredRipple_absent w state ripple ls Ha Hnot).
  - unfold reducer. rewrite (bind_run _ _ w state w) by done.
    change (is_Some (removeRipple state ripple w)).
    destruct Hty as [rp Hd].
    by rewrite (removeRipple_run w state ripple ls rs rp Ha Hrs Hd).
  - by rewrite reducer_default_run.
Qed.

Lemma dispatch_all_ok actions state h state' h' :
  ripple_set_ok h state →
  dispatch_all actions state h = Some (state', h') →
  ripple_set_ok h' state'.
Proof.
  revert state h. induction actions as [|[action now] actions IH];
    intros state h Hok Hrun; simpl in Hrun.
  - by injection Hrun as <- <-.
  - destruct (reducer (Some state) action {| heap := h; clock := now |})
      as [[state1 w1]|] eqn:Hstep; [|done].
    apply (IH state1 (heap w1)); [|done].
    by apply (reducer_ok {| heap := h; clock := now |} state action).
Qed.

End Exclusion.

(** C6, as the specification states it, fails: two CREATE events the
    helpers accept at the same reading of the clock, both from the mouse
    or one from the mouse and then one from a touch, leave a set with two
    entries of the same [startTime]. *)
Lemma same_tick_creates_share_startTime :
  (∃ state h r1 r2,
     @dispatch_all spec_utils
       [ (CreateAction (ev_mouse 1%positive) false, 100);
         (CreateAction (ev_mouse 1%positive) false, 100) ]
       initial_state initial_heap = Some (state, h)
     ∧ snapshot h state = Some [r1; r2]
     ∧ startTime r1 = startTime r2)
  ∧ (∃ state h r1 r2,
       @dispatch_all spec_utils
         [ (CreateAction (ev_mouse 1%positive) false, 100);
           (CreateAction (ev_touch 1%positive) false, 100) ]
         initial_state initial_heap = Some (state, h)
       ∧ snapshot h state = Some [r1; r2]
       ∧ type r1 = "mouse" ∧ type r2 = "touch"
       ∧ startTime r1 = startTime r2).
Proof.
  split.
  - exists 4%nat, (initial_heap ++ [ORipple (mouse_ripple 100); OArray [1%nat];
                                    ORipple (mouse_ripple 100);
                                    OArray [1; 3]%nat]),
      (mouse_ripple 100), (mouse_ripple 100).
    split_and!; reflexivity.
  - exists 4%nat, (initial_heap ++ [ORipple (mouse_ripple 100); OArray [1%nat];
                                    ORipple (touch_ripple 100);
                                    OArray [1; 3]%nat]),
      (mouse_ripple 100), (touch_ripple 100).
    split_and!; reflexivity.
Qed.

(** C6, amended.  Let [createRippleState] give the ripple the modality
    [getType] gives the event.  Whatever CREATE, RELEASE, ENTERED, REMOVE
    and CANCEL events are dispatched from the empty set, the state they
    leave is a set of ripples of the store in which no ripple of another
    modality comes after a touch ripple, and every well-typed action can
    be dispatched on it. *)
Theorem touch_exclusion_invariant `{U : RippleUtils} actions state h :
  (∀ event now, type (createRippleState event now) = getType event) →
  dispatch_all actions initial_state initial_heap = Some (state, h) →
  ∃ rs,
    snapshot h state = Some rs
    ∧ (∀ i j ri rj,
         (i < j)%nat → rs !! i = Some ri → rs !! j = Some rj →
         type ri = "touch" → type rj = "touch")
    ∧ ∀ action now,
        action_typed h action →
        is_Some (reducer (Some state) action {| heap := h; clock := now |}).
Proof.
  intros Hlaw Hrun.
  assert (ripple_set_ok initial_heap initial_state) as Hinit.
  { exists []. split; [done|apply touch_last_nil]. }
  pose proof (dispatch_all_ok Hlaw actions _ _ _ _ Hinit Hrun) as Hok.
  destruct Hok as (rs & Hsnap & Htl). exists rs. split_and!; [done..|].
  intros action now Hty.
  apply (reducer_total {| heap := h; clock := now |}); [|done].
  by exists rs.
Qed.

Lemma touch_exclusion_invariant_witness :
  ∃ state h,
    @dispatch_all spec_utils tap_actions initial_state initial_heap
    = Some (state, h)
    ∧ ∃ rs,
        snapshot h state = Some rs
        ∧ (∀ i j ri rj,
             (i < j)%nat → rs !! i = Some ri → rs !! j = Some rj →
             type ri = "touch" → type rj = "touch")
        ∧ ∀ action now,
            action_typed h action →
            is_Some (@reducer spec_utils (Some state) action
                       {| heap := h; clock := now |}).
Proof.
  eexists _, _. split; [vm_compute; reflexivity|].
  apply (@touch_exclusion_invariant spec_utils tap_actions).
  - reflexivity.
  - vm_compute. reflexivity.
Defined.


(** * Further properties of the transitions *)

(** ** RELEASE and ENTERED in either order *)

Lemma deref_replaced h ls' r' :
  deref (h ++ [OArray ls'; ORipple r']) (S (length h)) = Some r'.
Proof.
  change (h ++ [OArray ls'; ORipple r']) with (h ++ [OArray ls'] ++ [ORipple r']).
  rewrite app_assoc.
  replace (S (length h)) with (length (h ++ [OArray ls']))
    by (rewrite length_app; simpl; lia).
  apply deref_new.
Qed.

Lemma found_at_single ripple : found_at ripple [ripple] = 0%nat.
Proof. apply found_at_first; [done|lia]. Qed.

(** X1. A held ripple that is alone in the set and gets both RELEASE and
    ENTERED ends with [exiting = true], in whichever order the two come and
    whatever the clock reads at each of them. *)
Theorem released_and_entered_exits h state ripple r t1 t2 :
  entries h state = Some [ripple] →
  deref h ripple = Some r →
  holding r = true → entered r = false → exiting r = false →
  (∃ s1 w1 l1 s2 w2 r2,
     releaseRipple state {| heap := h; clock := t1 |} = Some (s1, w1)
     ∧ entries (heap w1) s1 = Some [l1]
     ∧ enteredRipple s1 l1 {| heap := heap w1; clock := t2 |} = Some (s2, w2)
     ∧ snapshot (heap w2) s2 = Some [r2]
     ∧ exiting r2 = true ∧ holding r2 = false)
  ∧ (∃ s1 w1 l1 s2 w2 r2,
       enteredRipple state ripple {| heap := h; clock := t1 |} = Some (s1, w1)
       ∧ entries (heap w1) s1 = Some [l1]
       ∧ releaseRipple s1 {| heap := heap w1; clock := t2 |} = Some (s2, w2)
       ∧ snapshot (heap w2) s2 = Some [r2]
       ∧ exiting r2 = true ∧ entered r2 = true).
Proof.
  intros Ha Hd Hh Hen Hex.
  assert (mapM (deref h) [ripple] = Some [r]) as Hrs by (simpl; by rewrite Hd).
  assert (ripple ∈ [ripple]) as Hin by apply list_elem_of_here.
  split.
  - pose proof (releaseRipple_run {| heap := h; clock := t1 |}
                  state [ripple] [r] Ha Hrs) as Hrun.
    cbn [list_find] in Hrun.
    rewrite decide_True in Hrun by (by rewrite Hh, Hex). simpl in Hrun.
    set (r1 := released t1 r) in *.
    set (h1 := h ++ [OArray [S (length h)]; ORipple r1]) in *.
    assert (entries h1 (length h) = Some [S (length h)]) as Ha1
      by apply entries_new.
    assert (deref h1 (S (length h)) = Some r1) as Hd1 by apply deref_replaced.
    assert (S (length h) ∈ [S (length h)]) as Hin1 by apply list_elem_of_here.
    pose proof (enteredRipple_present {| heap := h1; clock := t2 |}
                  (length h) (S (length h)) [S (length h)] r1 Ha1 Hin1 Hd1)
      as Hrun2.
    rewrite found_at_single in Hrun2.
    destruct (exiting r1) eqn:Hex1.
    + eexists (length h), _, (S (length h)), _, _, r1.
      split; [exact Hrun|]. split; [exact Ha1|]. split; [exact Hrun2|].
      split_and!; [|done..].
      eapply snapshot_intro; [exact Ha1|]. simpl. by rewrite Hd1.
    + eexists (length h), _, (S (length h)), _, _, (entered_at t2 r1).
      split; [exact Hrun|]. split; [exact Ha1|]. split; [exact Hrun2|].
      split_and!; [|done..].
      apply (snapshot_replaced h1 [S (length h)] [r1] 0). simpl.
      by rewrite Hd1.
  - pose proof (enteredRipple_present {| heap := h; clock := t1 |}
                  state ripple [ripple] r Ha Hin Hd) as Hrun.
    rewrite Hex, found_at_single in Hrun. simpl in Hrun.
    set (e1 := entered_at t1 r) in *.
    set (h1 := h ++ [OArray [S (length h)]; ORipple e1]) in *.
    assert (entries h1 (length h) = Some [S (length h)]) as Ha1
      by apply entries_new.
    assert (deref h1 (S (length h)) = Some e1) as Hd1 by apply deref_replaced.
    assert (mapM (deref h1) [S (length h)] = Some [e1]) as Hrs1
      by (simpl; by rewrite Hd1).
    pose proof (releaseRipple_run {| heap := h1; clock := t2 |}
                  (length h) [S (length h)] [e1] Ha1 Hrs1) as Hrun2.
    cbn [list_find] in Hrun2.
    assert (holding e1 = true) as Hh1 by done.
    assert (entered e1 = true) as Hen1 by done.
    destruct (exiting e1) eqn:Hex1.
    + rewrite decide_False in Hrun2 by (rewrite Hh1; simpl; tauto).
      simpl in Hrun2.
      eexists (length h), _, (S (length h)), _, _, e1.
      split; [exact Hrun|]. split; [exact Ha1|]. split; [exact Hrun2|].
      split_and!; [|done..].
      by eapply snapshot_intro.
    + rewrite decide_True in Hrun2 by (rewrite Hh1; simpl; tauto).
      simpl in Hrun2.
      eexists (length h), _, (S (length h)), _, _, (released t2 e1).
      split; [exact Hrun|]. split; [exact Ha1|]. split; [exact Hrun2|].
      split_and!; [|done..].
      by apply (snapshot_replaced h1 [S (length h)] [e1] 0).
Qed.

Lemma released_and_entered_exits_witness :
  ∃ s1 w1 l1 s2 w2 r2,
    enteredRipple 0%nat 1%nat {| heap := one_ripple; clock := 1200 |}
    = Some (s1, w1)
    ∧ entries (heap w1) s1 = Some [l1]
    ∧ releaseRipple s1 {| heap := heap w1; clock := 1250 |} = Some (s2, w2)
    ∧ snapshot (heap w2) s2 = Some [r2]
    ∧ exiting r2 = true ∧ entered r2 = true.
Proof.
  destruct (released_and_entered_exits one_ripple 0%nat 1%nat
              (mouse_ripple 1000) 1200 1250) as [_ H]; try reflexivity.
  exact H.
Defined.

(** ** What RELEASE and ENTERED leave alone *)

Lemma mapM_deref_lookup_lr h ls rs i l r :
  mapM (deref h) ls = Some rs → ls !! i = Some l → rs !! i = Some r →
  deref h l = Some r.
Proof.
  intros H%mapM_Some Hl Hr.
  by apply (Forall2_lookup_lr _ _ _ _ _ _ H Hl Hr).
Qed.

(** X2. A ripple that is exiting is out of reach of RELEASE and ENTERED:
    the set either of them returns holds, at the index of that ripple, the
    very reference the set given holds there, and the reference still
    stands for the same ripple. *)
Theorem exiting_ripples_untouched w state ls rs j l r :
  entries (heap w) state = Some ls →
  mapM (deref (heap w)) ls = Some rs →
  ls !! j = Some l → rs !! j = Some r → exiting r = true →
  (∃ state' w' ls',
     releaseRipple state w = Some (state', w')
     ∧ entries (heap w') state' = Some ls'
     ∧ ls' !! j = Some l
     ∧ deref (heap w') l = Some r)
  ∧ (∀ ripple,
       ∃ state' w' ls',
         enteredRipple state ripple w = Some (state', w')
         ∧ entries (heap w') state' = Some ls'
         ∧ ls' !! j = Some l
         ∧ deref (heap w') l = Some r).
Proof.
  intros Ha Hrs Hl Hr Hex.
  pose proof (mapM_deref_lookup_lr _ _ _ _ _ _ Hrs Hl Hr) as Hd.
  split.
  - rewrite (releaseRipple_run w state ls rs Ha Hrs).
    destruct (list_find _ rs) as [[i ri]|] eqn:Hfind.
    + apply list_find_Some in Hfind as (Hri & Hheld%held_iff & _).
      assert (i ≠ j) as Hne.
      { intros ->. rewrite Hr in Hri. injection Hri as <-.
        destruct Hheld as [_ ?]. congruence. }
      eexists _, _, _. split; [done|]. split; [apply entries_new|].
      split; [by rewrite list_lookup_insert_ne|]. by apply deref_app.
    + by exists state, w, ls.
  - intros ripple. destruct (decide (ripple ∈ ls)) as [Hin|Hnot].
    2: { rewrite (enteredRipple_absent w state ripple ls Ha Hnot).
         by exists state, w, ls. }
    pose proof (found_at_lookup _ _ Hin) as Hi.
    pose proof Hrs as HF%mapM_Some.
    destruct (Forall2_lookup_l _ _ _ _ _ HF Hi) as (rp & Hrp & Hdp).
    rewrite (enteredRipple_present w state ripple ls rp Ha Hin Hdp).
    destruct (exiting rp) eqn:Hexp; [by exists state, w, ls|].
    assert (found_at ripple ls ≠ j) as Hne.
    { intros Heq. rewrite Heq in Hrp. congruence. }
    eexists _, _, _. split; [done|]. split; [apply entries_new|].
    split; [by rewrite list_lookup_insert_ne|]. by apply deref_app.
Qed.

Lemma exiting_ripples_untouched_witness :
  ∃ state' w' ls',
    releaseRipple 0%nat {| heap := two_ripples; clock := 150 |}
    = Some (state', w')
    ∧ entries (heap w') state' = Some ls'
    ∧ ls' !! 0%nat = Some 1%nat
    ∧ deref (heap w') 1%nat
      = Some {| startTime := 100; style := {| left := 10; top := 20 |};
                type := "mouse"; holding := true; exiting := true;
                entered := true; mounted := true |}.
Proof.
  destruct (exiting_ripples_untouched {| heap := two_ripples; clock := 150 |}
              0%nat [1; 2]%nat _ 0%nat 1%nat _ eq_refl eq_refl eq_refl eq_refl
              eq_refl) as [H _].
  exact H.
Defined.

Lemma held_insert_count (rs : list RippleState) i r r' :
  rs !! i = Some r → held r → ¬ held r' →
  length (filter (λ x, held x) (<[i := r']> rs))
  = pred (length (filter (λ x, held x) rs)).
Proof.
  intros Hr Hh Hn'.
  pose proof (lookup_lt_Some _ _ _ Hr) as Hlt.
  rewrite (insert_take_drop rs i r' Hlt).
  rewrite <- (take_drop_middle rs i r Hr) at 3.
  rewrite !list.filter_app, !length_app.
  rewrite (filter_cons_False _ r') by done.
  rewrite (filter_cons_True _ r) by done. simpl. lia.
Qed.

(** X3. Every RELEASE lowers the number of ripples that are held and not
    exiting by one, and leaves it at zero when it is zero. *)
Theorem releaseRipple_held_count w state rs :
  snapshot (heap w) state = Some rs →
  ∃ state' w' rs',
    releaseRipple state w = Some (state', w')
    ∧ snapshot (heap w') state' = Some rs'
    ∧ length (filter (λ r, held r) rs')
      = pred (length (filter (λ r, held r) rs)).
Proof.
  intros Hsnap. pose proof Hsnap as (ls & Ha & Hrs)%snapshot_Some.
  rewrite (releaseRipple_run w state ls rs Ha Hrs).
  destruct (list_find _ rs) as [[i r]|] eqn:Hfind.
  - apply list_find_Some in Hfind as (Hr & Hheld & _).
    eexists _, _, _. split; [done|]. split; [by apply snapshot_replaced|].
    apply held_insert_count with r; [done..|].
    unfold held, released. simpl. tauto.
  - exists state, w, rs. split_and!; [done..|].
    apply list_find_None in Hfind.
    assert (filter (λ r, held r) rs = []) as ->; [|done].
    clear -Hfind. induction Hfind as [|r rs Hr _ IH]; [done|].
    by rewrite filter_cons_False.
Qed.

Lemma releaseRipple_held_count_witness :
  ∃ state' w' rs',
    releaseRipple 0%nat {| heap := two_ripples; clock := 150 |}
    = Some (state', w')
    ∧ snapshot (heap w') state' = Some rs'
    ∧ length (filter (λ r, held r) rs') = 0%nat.
Proof.
  apply (releaseRipple_held_count {| heap := two_ripples; clock := 150 |}
           0%nat _ eq_refl).
Defined.

Lemma fmap_insert_same {B} (f : RippleState → B)
    (rs : list RippleState) (i : nat) r r' :
  rs !! i = Some r → f r' = f r → f <$> <[i := r']> rs = f <$> rs.
Proof.
  intros Hr Hf. rewrite list_fmap_insert, Hf.
  apply list_insert_id. by rewrite list_lookup_fmap, Hr.
Qed.

(** X4. RELEASE changes no field of any ripple but [holding] and
    [exiting], ENTERED none but [entered] and [exiting], CANCEL with
    [ease = true] none but [holding], [exiting] and [mounted]; none of the
    three changes the number or the order of the ripples. *)
Theorem transitions_keep_fields w state rs :
  snapshot (heap w) state = Some rs →
  (∃ state' w' rs',
     releaseRipple state w = Some (state', w')
     ∧ snapshot (heap w') state' = Some rs'
     ∧ (λ r, (startTime r, style r, type r, entered r, mounted r)) <$> rs'
       = (λ r, (startTime r, style r, type r, entered r, mounted r)) <$> rs)
  ∧ (∀ ripple,
       ∃ state' w' rs',
         enteredRipple state ripple w = Some (state', w')
         ∧ snapshot (heap w') state' = Some rs'
         ∧ (λ r, (startTime r, style r, type r, holding r, mounted r)) <$> rs'
           = (λ r, (startTime r, style r, type r, holding r, mounted r)) <$> rs)
  ∧ (∃ state' w' rs',
       cancelRipples state true w = Some (state', w')
       ∧ snapshot (heap w') state' = Some rs'
       ∧ (λ r, (startTime r, style r, type r, entered r)) <$> rs'
         = (λ r, (startTime r, style r, type r, entered r)) <$> rs).
Proof.
  intros Hsnap. pose proof Hsnap as (ls & Ha & Hrs)%snapshot_Some.
  split_and!.
  - rewrite (releaseRipple_run w state ls rs Ha Hrs).
    destruct (list_find _ rs) as [[i r]|] eqn:Hfind.
    + apply list_find_Some in Hfind as (Hr & _ & _).
      eexists _, _, _. split; [done|]. split; [by apply snapshot_replaced|].
      by apply fmap_insert_same with r.
    + by exists state, w, rs.
  - intros ripple. destruct (decide (ripple ∈ ls)) as [Hin|Hnot].
    2: { rewrite (enteredRipple_absent w state ripple ls Ha Hnot).
         by exists state, w, rs. }
    pose proof (found_at_lookup _ _ Hin) as Hi.
    pose proof Hrs as HF%mapM_Some.
    destruct (Forall2_lookup_l _ _ _ _ _ HF Hi) as (rp & Hrp & Hdp).
    rewrite (enteredRipple_present w state ripple ls rp Ha Hin Hdp).
    destruct (exiting rp); [by exists state, w, rs|].
    eexists _, _, _. split; [done|]. split; [by apply snapshot_replaced|].
    by apply fmap_insert_same with rp.
  - rewrite (cancelRipples_ease_run w state ls rs Ha Hrs).
    eexists _, _, _. split; [done|]. split.
    + apply snapshot_cancelled. symmetry. by eapply mapM_deref_length.
    + by rewrite <- list_fmap_compose.
Qed.

Lemma transitions_keep_fields_witness :
  ∃ state' w' rs',
    releaseRipple 0%nat {| heap := two_ripples; clock := 150 |}
    = Some (state', w')
    ∧ snapshot (heap w') state' = Some rs'
    ∧ (λ r, (startTime r, style r, type r, entered r, mounted r)) <$> rs'
      = [ (100, {| left := 10; top := 20 |}, "mouse", true, true);
          (100, {| left := 3; top := 4 |}, "touch", false, true) ].
Proof.
  destruct (transitions_keep_fields {| heap := two_ripples; clock := 150 |}
              0%nat _ eq_refl) as [H _].
  exact H.
Defined.

(** ** Stale references *)

Lemma entries_allocated h ls rs l :
  mapM (deref h) ls = Some rs → l ∈ ls → (l < length h)%nat.
Proof.
  intros H%mapM_Some [i Hi]%list_elem_of_lookup_1.
  destruct (Forall2_lookup_l _ _ _ _ _ H Hi) as (r & _ & Hd%deref_Some).
  by eapply lookup_lt_Some.
Qed.

Lemma NoDup_insert_fresh (ls : list loc) i x :
  NoDup ls → x ∉ ls → NoDup (<[i := x]> ls).
Proof.
  intros Hnd Hx. apply NoDup_alt. intros j k y Hj Hk.
  apply list_lookup_insert_Some in Hj as [(-> & -> & _)|[Hij Hj]];
    apply list_lookup_insert_Some in Hk as [(Heq & Hxy & _)|[Hik Hk]].
  - done.
  - destruct Hx. by eapply list_elem_of_lookup_2.
  - subst y. destruct Hx. by eapply list_elem_of_lookup_2.
  - by eapply NoDup_lookup.
Qed.

Lemma not_elem_of_replaced (ls : list loc) i r x :
  NoDup ls → ls !! i = Some r → x ≠ r → r ∉ <[i := x]> ls.
Proof.
  intros Hnd Hi Hne [j Hj]%list_elem_of_lookup_1.
  apply list_lookup_insert_Some in Hj as [(_ & ? & _)|[Hij Hj]]; [done|].
  destruct Hij. by eapply NoDup_lookup.
Qed.

Lemma not_elem_of_deleted (ls : list loc) i r :
  NoDup ls → ls !! i = Some r → r ∉ delete i ls.
Proof.
  intros Hnd Hi [j Hj]%list_elem_of_lookup_1.
  rewrite list_lookup_delete in Hj.
  pose proof (NoDup_lookup _ _ _ _ Hnd Hi Hj) as Heq.
  case_decide; lia.
Qed.

Lemma delete_insert_same {A} (l : list A) i x :
  delete i (<[i := x]> l) = delete i l.
Proof. revert i. induction l as [|y l IH]; intros [|i]; simpl; by f_equal. Qed.

(** X5. ENTERED is idempotent in the reference it is given: on a set that
    holds no reference twice, a second ENTERED for the same reference,
    whatever the clock then reads, returns the set the first one returned
    and leaves the store as it is.  When the first one replaced the ripple,
    the reference is no longer an entry of the set. *)
Theorem enteredRipple_idempotent w state ls rs ripple t :
  entries (heap w) state = Some ls →
  mapM (deref (heap w)) ls = Some rs →
  NoDup ls →
  ∃ state' w',
    enteredRipple state ripple w = Some (state', w')
    ∧ enteredRipple state' ripple {| heap := heap w'; clock := t |}
      = Some (state', {| heap := heap w'; clock := t |}).
Proof.
  intros Ha Hrs Hnd. destruct (decide (ripple ∈ ls)) as [Hin|Hnot].
  2: { rewrite (enteredRipple_absent w state ripple ls Ha Hnot).
       exists state, w. split; [done|].
       by apply enteredRipple_absent with ls. }
  pose proof (found_at_lookup _ _ Hin) as Hi.
  pose proof Hrs as HF%mapM_Some.
  destruct (Forall2_lookup_l _ _ _ _ _ HF Hi) as (rp & Hrp & Hd).
  rewrite (enteredRipple_present w state ripple ls rp Ha Hin Hd).
  destruct (exiting rp) eqn:Hex.
  - exists state, w. split; [done|].
    rewrite (enteredRipple_present {| heap := heap w; clock := t |}
               state ripple ls rp Ha Hin Hd).
    by rewrite Hex.
  - eexists _, _. split; [done|].
    eapply enteredRipple_absent; [apply entries_new|].
    apply not_elem_of_replaced; [done..|].
    pose proof (entries_allocated _ _ _ _ Hrs Hin). lia.
Qed.

Lemma enteredRipple_idempotent_witness :
  ∃ state' w',
    enteredRipple 0%nat 2%nat {| heap := two_ripples; clock := 150 |}
    = Some (state', w')
    ∧ enteredRipple state' 2%nat {| heap := heap w'; clock := 900 |}
      = Some (state', {| heap := heap w'; clock := 900 |}).
Proof.
  apply (enteredRipple_idempotent {| heap := two_ripples; clock := 150 |}
           0%nat [1; 2]%nat _ 2%nat 900 eq_refl eq_refl).
  apply (bool_decide_unpack _). vm_compute. exact I.
Defined.

(** REMOVE at the position of the first ripple with the [startTime]
    looked for. *)
Lemma removeRipple_at w state ls rs ripple rp i r :
  entries (heap w) state = Some ls →
  mapM (deref (heap w)) ls = Some rs →
  deref (heap w) ripple = Some rp →
  rs !! i = Some r → startTime r = startTime rp →
  (∀ j r', rs !! j = Some r' → (j < i)%nat → startTime r' ≠ startTime rp) →
  removeRipple state ripple w
  = Some (length (heap w), extend w [OArray (delete i ls)])
  ∧ snapshot (heap (extend w [OArray (delete i ls)])) (length (heap w))
    = Some (delete i rs).
Proof.
  intros Ha Hrs Hd Hr Hst Hfirst.
  rewrite (removeRipple_run w state ripple ls rs rp Ha Hrs Hd).
  assert (list_find (λ r, startTime r = startTime rp) rs = Some (i, r)) as ->.
  { apply list_find_Some. split_and!; [done..|].
    intros j r' Hj Hlt. by eapply Hfirst. }
  split; [done|].
  eapply snapshot_intro; [apply entries_new|].
  by apply mapM_deref_app, mapM_deref_delete.
Qed.

(** X7. REMOVE tolerates a stale reference: after ENTERED(r), whether it
    replaced the ripple or not, REMOVE(r) with the old reference takes out
    the entry at the position [r] had, provided no earlier ripple of the
    set has the [startTime] of [r]. *)
Theorem remove_after_entered_stale w state ls rs ripple i r t :
  entries (heap w) state = Some ls →
  mapM (deref (heap w)) ls = Some rs →
  NoDup ls →
  ls !! i = Some ripple → rs !! i = Some r →
  (∀ j r', rs !! j = Some r' → (j < i)%nat → startTime r' ≠ startTime r) →
  ∃ s1 w1 s2 w2,
    enteredRipple state ripple w = Some (s1, w1)
    ∧ removeRipple s1 ripple {| heap := heap w1; clock := t |} = Some (s2, w2)
    ∧ snapshot (heap w2) s2 = Some (delete i rs).
Proof.
  intros Ha Hrs Hnd Hi Hr Hfirst.
  pose proof (mapM_deref_lookup_lr _ _ _ _ _ _ Hrs Hi Hr) as Hd.
  assert (ripple ∈ ls) as Hin by (by eapply list_elem_of_lookup_2).
  assert (found_at ripple ls = i) as Hfa.
  { apply found_at_first; [done|]. intros j Hlt Hj.
    pose proof (NoDup_lookup _ _ _ _ Hnd Hi Hj). lia. }
  rewrite (enteredRipple_present w state ripple ls r Ha Hin Hd), Hfa.
  destruct (exiting r).
  - destruct (removeRipple_at {| heap := heap w; clock := t |} state ls rs
                ripple r i r Ha Hrs Hd Hr eq_refl Hfirst) as [Hrun Hsnap].
    eexists _, _, _, _. split; [done|]. split; [exact Hrun|]. exact Hsnap.
  - set (e := entered_at (clock w) r).
    set (ls1 := <[i := S (length (heap w))]> ls).
    set (h1 := heap w ++ [OArray ls1; ORipple e]).
    assert (mapM (deref h1) ls1 = Some (<[i := e]> rs)) as Hrs1.
    { apply mapM_deref_insert; [by apply mapM_deref_app|].
      apply deref_replaced. }
    destruct (removeRipple_at {| heap := h1; clock := t |} (length (heap w))
                ls1 (<[i := e]> rs) ripple r i e) as [Hrun Hsnap].
    + apply entries_new.
    + exact Hrs1.
    + by apply deref_app.
    + apply list_lookup_insert_eq. by eapply lookup_lt_Some.
    + reflexivity.
    + intros j r' Hj Hlt. rewrite list_lookup_insert_ne in Hj by lia.
      by eapply Hfirst.
    + eexists _, _, _, _. split; [done|]. split; [exact Hrun|].
      rewrite Hsnap. by rewrite delete_insert_same.
Qed.

Lemma remove_after_entered_stale_witness :
  ∃ s1 w1 s2 w2,
    enteredRipple 0%nat 1%nat {| heap := one_ripple; clock := 1100 |}
    = Some (s1, w1)
    ∧ removeRipple s1 1%nat {| heap := heap w1; clock := 1500 |} = Some (s2, w2)
    ∧ snapshot (heap w2) s2 = Some [].
Proof.
  apply (remove_after_entered_stale {| heap := one_ripple; clock := 1100 |}
           0%nat [1%nat] [mouse_ripple 1000] 1%nat 0%nat (mouse_ripple 1000)
           1500 eq_refl eq_refl).
  - apply (bool_decide_unpack _). vm_compute. exact I.
  - reflexivity.
  - reflexivity.
  - intros j r' _ Hlt. lia.
Defined.

(** X8. A late ENTERED does no harm: once REMOVE(r) has taken out the
    entry that is [r], an ENTERED(r) returns the set it was given and
    leaves the store as it is. *)
Theorem entered_after_remove_noop w state ls rs ripple i r t :
  entries (heap w) state = Some ls →
  mapM (deref (heap w)) ls = Some rs →
  NoDup ls →
  ls !! i = Some ripple → rs !! i = Some r →
  (∀ j r', rs !! j = Some r' → (j < i)%nat → startTime r' ≠ startTime r) →
  ∃ state' w',
    removeRipple state ripple w = Some (state', w')
    ∧ snapshot (heap w') state' = Some (delete i rs)
    ∧ enteredRipple state' ripple {| heap := heap w'; clock := t |}
      = Some (state', {| heap := heap w'; clock := t |}).
Proof.
  intros Ha Hrs Hnd Hi Hr Hfirst.
  pose proof (mapM_deref_lookup_lr _ _ _ _ _ _ Hrs Hi Hr) as Hd.
  destruct (removeRipple_at w state ls rs ripple r i r Ha Hrs Hd Hr eq_refl
              Hfirst) as [Hrun Hsnap].
  eexists _, _. split; [exact Hrun|]. split; [exact Hsnap|].
  eapply enteredRipple_absent; [apply entries_new|].
  by apply not_elem_of_deleted.
Qed.

Lemma entered_after_remove_noop_witness :
  ∃ state' w',
    removeRipple 0%nat 1%nat {| heap := one_ripple; clock := 1100 |}
    = Some (state', w')
    ∧ snapshot (heap w') state' = Some []
    ∧ enteredRipple state' 1%nat {| heap := heap w'; clock := 1200 |}
      = Some (state', {| heap := heap w'; clock := 1200 |}).
Proof.
  apply (entered_after_remove_noop {| heap := one_ripple; clock := 1100 |}
           0%nat [1%nat] [mouse_ripple 1000] 1%nat 0%nat (mouse_ripple 1000)
           1200 eq_refl eq_refl).
  - apply (bool_decide_unpack _). vm_compute. exact I.
  - reflexivity.
  - reflexivity.
  - intros j r' _ Hlt. lia.
Defined.

(** ** Well-formed sets over sequences of events *)

Lemma fresh_not_in h ls rs x :
  mapM (deref h) ls = Some rs → (length h ≤ x)%nat → x ∉ ls.
Proof.
  intros Hrs Hx Hin. pose proof (entries_allocated _ _ _ _ Hrs Hin). lia.
Qed.

Lemma set_wf_replaced h ls rs i r' :
  mapM (deref h) ls = Some rs → NoDup ls →
  set_wf (h ++ [OArray (<[i := S (length h)]> ls); ORipple r']) (length h).
Proof.
  intros Hrs Hnd. exists (<[i := S (length h)]> ls), (<[i := r']> rs).
  split_and!.
  - apply entries_new.
  - apply mapM_deref_insert; [by apply mapM_deref_app|apply deref_replaced].
  - apply NoDup_insert_fresh; [done|]. eapply fresh_not_in; [done|lia].
Qed.

Section WellFormed.
Context `{U : RippleUtils}.

Lemma createRipple_wf w state event disableSpacebarClick state' w' :
  set_wf (heap w) state →
  createRipple state event disableSpacebarClick w = Some (state', w') →
  set_wf (heap w') state'.
Proof.
  intros (ls & rs & Ha & Hrs & Hnd) Hrun.
  destruct (negb (isRippleable event disableSpacebarClick) || isBubbled event)
    eqn:Hguard.
  { rewrite createRipple_rejected in Hrun by done.
    injection Hrun as <- <-. by exists ls, rs. }
  rewrite (createRipple_accepted w state event _ ls rs Ha Hrs Hguard) in Hrun.
  destruct (negb (String.eqb (getType event) "touch")
            && bool_decide (Exists (λ r, type r = "touch") rs)).
  { injection Hrun as <- <-. by exists ls, rs. }
  injection Hrun as <- <-.
  exists (ls ++ [length (heap w)]),
    (rs ++ [createRippleState event (clock w)]).
  split_and!.
  - apply entries_appended.
  - apply mapM_deref_snoc; [by apply mapM_deref_app|apply deref_new].
  - apply list.NoDup_app. split_and!; [done| |apply NoDup_singleton].
    intros x Hx ->%list_elem_of_singleton.
    by apply (fresh_not_in _ _ _ (length (heap w)) Hrs).
Qed.

Lemma releaseRipple_wf w state state' w' :
  set_wf (heap w) state →
  releaseRipple state w = Some (state', w') →
  set_wf (heap w') state'.
Proof.
  intros (ls & rs & Ha & Hrs & Hnd) Hrun.
  rewrite (releaseRipple_run w state ls rs Ha Hrs) in Hrun.
  destruct (list_find _ rs) as [[i r]|].
  - injection Hrun as <- <-. by apply set_wf_replaced with rs.
  - injection Hrun as <- <-. by exists ls, rs.
Qed.

Lemma enteredRipple_wf w state ripple state' w' :
  set_wf (heap w) state →
  enteredRipple state ripple w = Some (state', w') →
  set_wf (heap w') state'.
Proof.
  intros (ls & rs & Ha & Hrs & Hnd) Hrun.
  destruct (decide (ripple ∈ ls)) as [Hin|Hnot].
  2: { rewrite (enteredRipple_absent w state ripple ls Ha Hnot) in Hrun.
       injection Hrun as <- <-. by exists ls, rs. }
  pose proof (found_at_lookup _ _ Hin) as Hi.
  pose proof Hrs as HF%mapM_Some.
  destruct (Forall2_lookup_l _ _ _ _ _ HF Hi) as (rp & Hrp & Hd).
  rewrite (enteredRipple_present w state ripple ls rp Ha Hin Hd) in Hrun.
  destruct (exiting rp).
  - injection Hrun as <- <-. by exists ls, rs.
  - injection Hrun as <- <-. by apply set_wf_replaced with rs.
Qed.

Lemma removeRipple_wf w state ripple state' w' :
  set_wf (heap w) state →
  removeRipple state ripple w = Some (state', w') →
  set_wf (heap w') state'.
Proof.
  intros (ls & rs & Ha & Hrs & Hnd) Hrun.
  destruct (deref (heap w) ripple) as [rp|] eqn:Hd.
  - rewrite (removeRipple_run w state ripple ls rs rp Ha Hrs Hd) in Hrun.
    destruct (list_find _ rs) as [[i r]|].
    + injection Hrun as <- <-. exists (delete i ls), (delete i rs).
      split_and!.
      * apply entries_new.
      * by apply mapM_deref_app, mapM_deref_delete.
      * eapply sublist_NoDup; [exact Hnd|apply sublist_delete].
    + injection Hrun as <- <-. by exists ls, rs.
  - destruct ls as [|l ls].
    + rewrite removeRipple_empty in Hrun by done.
      injection Hrun as <- <-. by exists [], rs.
    + pose proof Hrs as HF.
      apply mapM_Some, Forall2_cons_inv_l in HF as (r & rs' & Hl & _ & _).
      by rewrite (removeRipple_dangling w state ripple l ls r) in Hrun.
Qed.

Lemma cancelRipples_wf w state ease state' w' :
  set_wf (heap w) state →
  cancelRipples state ease w = Some (state', w') →
  set_wf (heap w') state'.
Proof.
  intros (ls & rs & Ha & Hrs & Hnd) Hrun. destruct ease.
  - rewrite (cancelRipples_ease_run w state ls rs Ha Hrs) in Hrun.
    injection Hrun as <- <-.
    exists (seq (length (heap w)) (length ls)), (spread_cancelled <$> rs).
    pose proof (mapM_deref_length _ _ _ Hrs) as Hlen.
    split_and!.
    + simpl. rewrite app_assoc. apply entries_Some, list_lookup_middle.
      by rewrite length_app, !length_fmap, Hlen.
    + simpl. rewrite list_fmap_compose, <- Hlen.
      rewrite <- (length_fmap spread_cancelled rs). apply mapM_deref_seq.
    + apply NoDup_seq.
  - rewrite cancelRipples_now_run in Hrun. injection Hrun as <- <-.
    exists [], []. split_and!; [apply entries_new|done|apply NoDup_nil_2].
Qed.

Lemma reducer_wf w state action state' w' :
  set_wf (heap w) state →
  reducer (Some state) action w = Some (state', w') →
  set_wf (heap w') state'.
Proof.
  intros Hok. unfold reducer. rewrite (bind_run _ _ w state w) by done.
  destruct action as [event d|event|ease|ripple|ripple|t];
    cbn [action_type].
  - apply createRipple_wf, Hok.
  - apply releaseRipple_wf, Hok.
  - apply cancelRipples_wf, Hok.
  - apply enteredRipple_wf, Hok.
  - apply removeRipple_wf, Hok.
  - destruct (String.eqb t CREATE); [done|].
    destruct (String.eqb t RELEASE); [apply releaseRipple_wf, Hok|].
    destruct (String.eqb t CANCEL); [done|].
    destruct (String.eqb t ENTERED); [done|].
    destruct (String.eqb t REMOVE); [done|].
    intros [= <- <-]. done.
Qed.

Lemma dispatch_all_wf actions state h state' h' :
  set_wf h state →
  dispatch_all actions state h = Some (state', h') →
  set_wf h' state'.
Proof.
  revert state h. induction actions as [|[action now] actions IH];
    intros state h Hok Hrun; simpl in Hrun.
  - by injection Hrun as <- <-.
  - destruct (reducer (Some state) action {| heap := h; clock := now |})
      as [[state1 w1]|] eqn:Hstep; [|done].
    apply (IH state1 (heap w1)); [|done].
    by apply (reducer_wf {| heap := h; clock := now |} state action).
Qed.

End WellFormed.

(** X6. Whatever actions are dispatched from the empty set, the state
    they leave is an array of the store whose entries are ripples of the
    store, and no reference occurs twice among them: two entries of a set
    are never the same object. *)
Theorem reachable_sets_hold_no_reference_twice `{U : RippleUtils}
    actions state h :
  dispatch_all actions initial_state initial_heap = Some (state, h) →
  ∃ ls rs,
    entries h state = Some ls
    ∧ mapM (deref h) ls = Some rs
    ∧ NoDup ls.
Proof.
  intros Hrun. apply (dispatch_all_wf actions initial_state initial_heap);
    [|done].
  exists [], []. split_and!; [done..|apply NoDup_nil_2].
Qed.

Lemma reachable_sets_hold_no_reference_twice_witness :
  ∃ state h,
    @dispatch_all spec_utils
      [ (CreateAction (ev_mouse 1%positive) false, 100);
        (CreateAction (ev_mouse 1%positive) false, 100);
        (EnteredAction 1%nat, 130) ]
      initial_state initial_heap = Some (state, h)
    ∧ ∃ ls rs,
        entries h state = Some ls
        ∧ mapM (deref h) ls = Some rs
        ∧ NoDup ls.
Proof.
  eexists _, _. split; [vm_compute; reflexivity|].
  apply (@reachable_sets_hold_no_reference_twice spec_utils
           [ (CreateAction (ev_mouse 1%positive) false, 100);
             (CreateAction (ev_mouse 1%positive) false, 100);
             (EnteredAction 1%nat, 130) ]).
  vm_compute. reflexivity.
Defined.

(** ** After CANCEL with [ease = true] *)

Lemma cancelled_set h (ls : list loc) (rs : list RippleState) :
  length ls = length rs →
  entries (h ++ (ORipple ∘ spread_cancelled <$> rs)
             ++ [OArray (seq (length h) (length ls))])
    (length h + length ls)%nat
  = Some (seq (length h) (length ls))
  ∧ mapM (deref (h ++ (ORipple ∘ spread_cancelled <$> rs)
                   ++ [OArray (seq (length h) (length ls))]))
      (seq (length h) (length ls))
    = Some (spread_cancelled <$> rs).
Proof.
  intros Hlen. split.
  - rewrite app_assoc. apply entries_Some, list_lookup_middle.
    by rewrite length_app, !length_fmap, Hlen.
  - rewrite list_fmap_compose, Hlen, <- (length_fmap spread_cancelled rs).
    apply mapM_deref_seq.
Qed.

Lemma spread_cancelled_twice (rs : list RippleState) :
  spread_cancelled <$> (spread_cancelled <$> rs) = spread_cancelled <$> rs.
Proof. rewrite <- list_fmap_compose. by apply list_fmap_ext. Qed.

(** X9. After CANCEL with [ease = true] the set is at rest: RELEASE
    returns it as it is, ENTERED returns it as it is for every reference,
    and a second CANCEL with [ease = true] returns a set of the same
    ripples. *)
Theorem cancel_ease_then_quiet w state rs :
  snapshot (heap w) state = Some rs →
  ∃ state' w' rs',
    cancelRipples state true w = Some (state', w')
    ∧ snapshot (heap w') state' = Some rs'
    ∧ (∀ t, releaseRipple state' {| heap := heap w'; clock := t |}
            = Some (state', {| heap := heap w'; clock := t |}))
    ∧ (∀ t ripple,
         enteredRipple state' ripple {| heap := heap w'; clock := t |}
         = Some (state', {| heap := heap w'; clock := t |}))
    ∧ (∀ t, ∃ state2 w2,
         cancelRipples state' true {| heap := heap w'; clock := t |}
         = Some (state2, w2)
         ∧ snapshot (heap w2) state2 = Some rs').
Proof.
  intros (ls & Ha & Hrs)%snapshot_Some.
  rewrite (cancelRipples_ease_run w state ls rs Ha Hrs).
  pose proof (mapM_deref_length _ _ _ Hrs) as Hlen. symmetry in Hlen.
  destruct (cancelled_set (heap w) ls rs Hlen) as [Ha' Hrs'].
  eexists _, _, (spread_cancelled <$> rs). split; [done|].
  split; [by eapply snapshot_intro|]. simpl. split_and!.
  - intros t.
    rewrite (releaseRipple_run {| heap := _; clock := t |} _ _ _ Ha' Hrs').
    assert (list_find (λ r, holding r && negb (exiting r))
              (spread_cancelled <$> rs) = None) as ->; [|done].
    apply list_find_None, Forall_fmap, Forall_forall.
    intros r _. simpl. tauto.
  - intros t ripple.
    destruct (decide (ripple ∈ seq (length (heap w)) (length ls)))
      as [Hin|Hnot].
    2: { by apply enteredRipple_absent with (seq (length (heap w)) (length ls)). }
    pose proof (found_at_lookup _ _ Hin) as Hi.
    pose proof Hrs' as HF%mapM_Some.
    destruct (Forall2_lookup_l _ _ _ _ _ HF Hi) as (rp & Hrp & Hd).
    rewrite (enteredRipple_present {| heap := _; clock := t |} _ ripple _ rp
               Ha' Hin Hd).
    apply list_lookup_fmap_Some in Hrp as (r0 & -> & _). done.
  - intros t.
    pose proof (cancelRipples_ease_run {| heap := _; clock := t |} _ _ _
                  Ha' Hrs') as Hrun2.
    eexists _, _. split; [exact Hrun2|]. unfold extend. cbn [heap].
    rewrite <- (spread_cancelled_twice rs) at 2.
    apply snapshot_cancelled. by rewrite length_seq, length_fmap.
Qed.

Lemma cancel_ease_then_quiet_witness :
  ∃ state' w' rs',
    cancelRipples 0%nat true {| heap := two_ripples; clock := 150 |}
    = Some (state', w')
    ∧ snapshot (heap w') state' = Some rs'
    ∧ (∀ t, releaseRipple state' {| heap := heap w'; clock := t |}
            = Some (state', {| heap := heap w'; clock := t |}))
    ∧ (∀ t ripple,
         enteredRipple state' ripple {| heap := heap w'; clock := t |}
         = Some (state', {| heap := heap w'; clock := t |}))
    ∧ (∀ t, ∃ state2 w2,
         cancelRipples state' true {| heap := heap w'; clock := t |}
         = Some (state2, w2)
         ∧ snapshot (heap w2) state2 = Some rs').
Proof.
  apply (cancel_ease_then_quiet {| heap := two_ripples; clock := 150 |} 0%nat
           _ eq_refl).
Defined.

(** ** The reducer without a state *)

Lemma unmutated_extend2 w ext ext' :
  unmutated w (extend (extend w ext) ext').
Proof.
  intros l o Hl. simpl. by apply lookup_app_l_Some, lookup_app_l_Some.
Qed.

Section Undefined.
Context `{U : RippleUtils}.

(** The default value of the parameter [state]. *)
Lemma reducer_undefined w action :
  reducer None action w
  = reducer (Some (length (heap w))) action (extend w [OArray []]).
Proof. reflexivity. Qed.

Lemma reducer_create_run w state event d :
  reducer (Some state) (CreateAction event d) w = createRipple state event d w.
Proof. reflexivity. Qed.

End Undefined.

(** X10. Called with [undefined] for the state, the reducer works on a
    new empty array and changes nothing that was in the store: RELEASE,
    CANCEL, ENTERED, REMOVE and an unknown action return an empty set,
    whatever reference ENTERED or REMOVE carry, and CREATE returns the set
    of the one new ripple unless [isRippleable] rejects the event or
    [isBubbled] accepts it; the touch guard cannot stop a first ripple. *)
Theorem reducer_undefined_state `{U : RippleUtils} w action :
  match action with
  | UnknownAction t => t ∉ [CREATE; RELEASE; CANCEL; ENTERED; REMOVE]
  | _ => True
  end →
  ∃ state' w',
    reducer None action w = Some (state', w')
    ∧ is_new w state'
    ∧ unmutated w w'
    ∧ snapshot (heap w') state'
      = Some match action with
             | CreateAction event d =>
                 if negb (isRippleable event d) || isBubbled event then []
                 else [createRippleState event (clock w)]
             | _ => []
             end.
Proof.
  intros Hty. rewrite reducer_undefined.
  set (w1 := extend w [OArray []]).
  assert (entries (heap w1) (length (heap w)) = Some []) as Ha
    by apply entries_new.
  assert (mapM (deref (heap w1)) [] = Some []) as Hrs by done.
  assert (snapshot (heap w1) (length (heap w)) = Some []) as Hsnap
    by (by eapply snapshot_intro).
  assert (is_new w (length (heap w))) as Hnew by (by apply is_new_ge).
  assert (unmutated w w1) as Hun by apply unmutated_extend.
  destruct action as [event d|event|ease|ripple|ripple|t].
  - rewrite reducer_create_run.
    destruct (negb (isRippleable event d) || isBubbled event) eqn:Hguard.
    + rewrite createRipple_rejected by done. by exists (length (heap w)), w1.
    + rewrite (createRipple_accepted w1 _ event d [] [] Ha Hrs Hguard).
      rewrite andb_false_r.
      eexists _, _. split; [done|]. split_and!.
      * apply is_new_ge. unfold w1. simpl. rewrite length_app. lia.
      * apply unmutated_extend2.
      * apply (snapshot_appended (heap w1) [] []
                 (createRippleState event (clock w)) Hrs).
  - change (reducer (Some (length (heap w))) (ReleaseAction event) w1)
      with (releaseRipple (length (heap w)) w1).
    rewrite (releaseRipple_run w1 _ [] [] Ha Hrs).
    by exists (length (heap w)), w1.
  - change (reducer (Some (length (heap w))) (CancelAction ease) w1)
      with (cancelRipples (length (heap w)) ease w1).
    destruct ease.
    + rewrite (cancelRipples_ease_run w1 _ [] [] Ha Hrs).
      eexists _, _. split; [done|]. split_and!.
      * apply is_new_ge. unfold w1. simpl. rewrite length_app. lia.
      * apply unmutated_extend2.
      * apply (snapshot_cancelled (heap w1) [] []). done.
    + rewrite cancelRipples_now_run.
      eexists _, _. split; [done|]. split_and!.
      * apply is_new_ge. unfold w1. simpl. rewrite length_app. lia.
      * apply unmutated_extend2.
      * eapply snapshot_intro; [apply entries_new|done].
  - change (reducer (Some (length (heap w))) (EnteredAction ripple) w1)
      with (enteredRipple (length (heap w)) ripple w1).
    rewrite (enteredRipple_absent w1 _ ripple [] Ha) by apply not_elem_of_nil.
    by exists (length (heap w)), w1.
  - change (reducer (Some (length (heap w))) (RemoveAction ripple) w1)
      with (removeRipple (length (heap w)) ripple w1).
    rewrite removeRipple_empty by done.
    by exists (length (heap w)), w1.
  - rewrite reducer_default_run by done.
    by exists (length (heap w)), w1.
Qed.

Lemma reducer_undefined_state_witness :
  ∃ state' w',
    @reducer spec_utils None (UnknownAction "RESET")
      {| heap := two_ripples; clock := 150 |} = Some (state', w')
    ∧ is_new {| heap := two_ripples; clock := 150 |} state'
    ∧ unmutated {| heap := two_ripples; clock := 150 |} w'
    ∧ snapshot (heap w') state' = Some [].
Proof.
  apply (@reducer_undefined_state spec_utils
           {| heap := two_ripples; clock := 150 |} (UnknownAction "RESET")).
  simpl. intros H%list_elem_of_In. simpl in H.
  repeat destruct H as [H|H]; try discriminate H. done.
Defined.

(** ** When the [startTime]s of a set are distinct *)

Section StartTimes.
Context `{U : RippleUtils}.

(** [createRippleState] stamps the ripple with the reading of the clock. *)
Hypothesis created_now :
  ∀ event now, startTime (createRippleState event now) = now.

(** The [startTime]s a transition leaves: those it was given, or those
    without one of them, or none, or, after a CREATE action only, those
    and the reading of the clock after them. *)
Lemma reducer_startTimes w state action rs state' w' :
  snapshot (heap w) state = Some rs →
  reducer (Some state) action w = Some (state', w') →
  ∃ rs',
    snapshot (heap w') state' = Some rs'
    ∧ (startTime <$> rs' = startTime <$> rs
       ∨ (∃ i, startTime <$> rs' = delete i (startTime <$> rs))
       ∨ rs' = []
       ∨ ((∃ event d, action = CreateAction event d)
          ∧ startTime <$> rs' = (startTime <$> rs) ++ [clock w])).
Proof.
  intros Hsnap. pose proof Hsnap as (ls & Ha & Hrs)%snapshot_Some.
  assert (∀ state' w',
            releaseRipple state w = Some (state', w') →
            ∃ rs', snapshot (heap w') state' = Some rs'
                   ∧ startTime <$> rs' = startTime <$> rs) as Hrelease.
  { clear state' w'. intros state' w' Hrun.
    rewrite (releaseRipple_run w state ls rs Ha Hrs) in Hrun.
    destruct (list_find _ rs) as [[i r]|] eqn:Hfind.
    - injection Hrun as <- <-. apply list_find_Some in Hfind as (Hr & _ & _).
      eexists. split; [by apply snapshot_replaced|].
      by apply fmap_insert_same with r.
    - injection Hrun as <- <-. by exists rs. }
  unfold reducer. rewrite (bind_run _ _ w state w) by done.
  destruct action as [event d|event|ease|ripple|ripple|t];
    cbn [action_type].
  - intros Hrun. change (createRipple state event d w = Some (state', w')) in Hrun.
    destruct (negb (isRippleable event d) || isBubbled event) eqn:Hguard.
    { rewrite createRipple_rejected in Hrun by done.
      injection Hrun as <- <-. exists rs. auto. }
    rewrite (createRipple_accepted w state event _ ls rs Ha Hrs Hguard) in Hrun.
    destruct (negb (String.eqb (getType event) "touch")
              && bool_decide (Exists (λ r, type r = "touch") rs)).
    { injection Hrun as <- <-. exists rs. auto. }
    injection Hrun as <- <-. eexists. split; [by apply snapshot_appended|].
    do 3 right. split; [by eauto|].
    rewrite fmap_app. simpl. by rewrite created_now.
  - intros (rs' & ? & ?)%Hrelease. exists rs'. auto.
  - intros Hrun. change (cancelRipples state ease w = Some (state', w')) in Hrun. destruct ease.
    + rewrite (cancelRipples_ease_run w state ls rs Ha Hrs) in Hrun.
      injection Hrun as <- <-. exists (spread_cancelled <$> rs). split.
      * apply snapshot_cancelled. symmetry. by eapply mapM_deref_length.
      * left. by rewrite <- list_fmap_compose.
    + rewrite cancelRipples_now_run in Hrun. injection Hrun as <- <-.
      exists []. split; [|auto].
      eapply snapshot_intro; [apply entries_new|done].
  - intros Hrun. change (enteredRipple state ripple w = Some (state', w')) in Hrun. destruct (decide (ripple ∈ ls)) as [Hin|Hnot].
    2: { rewrite (enteredRipple_absent w state ripple ls Ha Hnot) in Hrun.
         injection Hrun as <- <-. exists rs. auto. }
    pose proof (found_at_lookup _ _ Hin) as Hi.
    pose proof Hrs as HF%mapM_Some.
    destruct (Forall2_lookup_l _ _ _ _ _ HF Hi) as (rp & Hrp & Hd).
    rewrite (enteredRipple_present w state ripple ls rp Ha Hin Hd) in Hrun.
    destruct (exiting rp).
    + injection Hrun as <- <-. exists rs. auto.
    + injection Hrun as <- <-. eexists. split; [by apply snapshot_replaced|].
      left. by apply fmap_insert_same with rp.
  - intros Hrun. change (removeRipple state ripple w = Some (state', w')) in Hrun. destruct (deref (heap w) ripple) as [rp|] eqn:Hd.
    + rewrite (removeRipple_run w state ripple ls rs rp Ha Hrs Hd) in Hrun.
      destruct (list_find _ rs) as [[i r]|].
      * injection Hrun as <- <-. exists (delete i rs). split.
        -- eapply snapshot_intro; [apply entries_new|].
           by apply mapM_deref_app, mapM_deref_delete.
        -- right. left. exists i. apply list_fmap_delete.
      * injection Hrun as <- <-. exists rs. auto.
    + destruct ls as [|l ls].
      * rewrite removeRipple_empty in Hrun by done.
        injection Hrun as <- <-. exists rs. auto.
      * pose proof Hrs as HF.
        apply mapM_Some, Forall2_cons_inv_l in HF as (r & rs' & Hl & _ & _).
        by rewrite (removeRipple_dangling w state ripple l ls r) in Hrun.
  - destruct (String.eqb t CREATE); [done|].
    destruct (String.eqb t RELEASE).
    { intros (rs' & ? & ?)%Hrelease. exists rs'. auto. }
    destruct (String.eqb t CANCEL); [done|].
    destruct (String.eqb t ENTERED); [done|].
    destruct (String.eqb t REMOVE); [done|].
    intros [= <- <-]. exists rs. auto.
Qed.

Lemma create_readings_cons action now actions :
  create_readings ((action, now) :: actions)
  = match action with
    | CreateAction _ _ => now :: create_readings actions
    | _ => create_readings actions
    end.
Proof. by destruct action. Qed.

Lemma create_readings_tail action now actions (P : Z → Prop) :
  Forall P (create_readings ((action, now) :: actions)) →
  Forall P (create_readings actions).
Proof.
  rewrite create_readings_cons. destruct action; try done.
  by intros [_ ?]%Forall_cons_1.
Qed.

Lemma NoDup_create_readings_tail action now actions :
  NoDup (create_readings ((action, now) :: actions)) →
  NoDup (create_readings actions).
Proof.
  rewrite create_readings_cons. destruct action; try done.
  by intros [_ ?]%list.NoDup_cons.
Qed.

Lemma dispatch_all_startTimes actions state h rs state' h' :
  snapshot h state = Some rs →
  NoDup (startTime <$> rs) →
  Forall (λ now, now ∉ startTime <$> rs) (create_readings actions) →
  NoDup (create_readings actions) →
  dispatch_all actions state h = Some (state', h') →
  ∃ rs', snapshot h' state' = Some rs' ∧ NoDup (startTime <$> rs').
Proof.
  revert state h rs. induction actions as [|[action now] actions IH];
    intros state h rs Hsnap Hnd Hfresh Hreadings Hrun; simpl in Hrun.
  - injection Hrun as <- <-. by exists rs.
  - destruct (reducer (Some state) action {| heap := h; clock := now |})
      as [[state1 w1]|] eqn:Hstep; [|done].
    destruct (reducer_startTimes {| heap := h; clock := now |} state action
                rs state1 w1 Hsnap Hstep) as (rs1 & Hsnap1 & Hshape).
    simpl in Hshape.
    pose proof (create_readings_tail _ _ _ _ Hfresh) as Hfresh'.
    pose proof (NoDup_create_readings_tail _ _ _ Hreadings) as Hreadings'.
    apply (IH state1 (heap w1) rs1); [done| | |done..].
    + destruct Hshape as [Heq|[[i Heq]|[Heq|[(event & d & ->) Heq]]]];
        rewrite Heq.
      * done.
      * eapply sublist_NoDup; [exact Hnd|apply sublist_delete].
      * constructor.
      * apply list.NoDup_app. split_and!; [done| |apply NoDup_singleton].
        intros st Hst ->%list_elem_of_singleton.
        rewrite create_readings_cons in Hfresh.
        apply Forall_cons_1 in Hfresh as [Hnow _]. done.
    + destruct Hshape as [Heq|[[i Heq]|[Heq|[(event & d & ->) Heq]]]];
        rewrite Heq.
      * done.
      * rewrite Forall_forall in Hfresh'. apply Forall_forall.
        intros t Ht Hin. apply (Hfresh' t Ht).
        eapply elem_of_sublist; [exact Hin|apply sublist_delete].
      * apply Forall_forall. intros t _. apply not_elem_of_nil.
      * rewrite create_readings_cons in Hreadings.
        apply list.NoDup_cons in Hreadings as [Hnew _].
        apply Forall_forall. intros t Ht.
        rewrite elem_of_app, list_elem_of_singleton.
        intros [Hin| ->].
        -- rewrite Forall_forall in Hfresh'. by apply (Hfresh' t Ht).
        -- apply Hnew. by apply list_elem_of_In.
Qed.

End StartTimes.

(** X12. Let [createRippleState] stamp the ripple with the reading of the
    clock.  When no two CREATE actions of those dispatched from the empty
    set come at the same reading of the clock, no two ripples of the set
    they leave have the same [startTime]: two ripples with one [startTime]
    come only of two CREATE actions at one reading. *)
Theorem distinct_readings_distinct_startTimes `{U : RippleUtils}
    actions state h :
  (∀ event now, startTime (createRippleState event now) = now) →
  NoDup (create_readings actions) →
  dispatch_all actions initial_state initial_heap = Some (state, h) →
  ∃ rs, snapshot h state = Some rs ∧ NoDup (startTime <$> rs).
Proof.
  intros Hlaw Hreadings Hrun.
  apply (dispatch_all_startTimes Hlaw actions initial_state initial_heap []);
    try done.
  - constructor.
  - apply Forall_forall. intros now _. apply not_elem_of_nil.
Qed.

Lemma distinct_readings_distinct_startTimes_witness :
  ∃ state h,
    @dispatch_all spec_utils
      [ (CreateAction (ev_mouse 1%positive) false, 100);
        (ReleaseAction (ev_mouse 1%positive), 100);
        (CreateAction (ev_mouse 1%positive) false, 130);
        (EnteredAction 1%nat, 130) ]
      initial_state initial_heap = Some (state, h)
    ∧ ∃ rs, snapshot h state = Some rs ∧ NoDup (startTime <$> rs).
Proof.
  eexists _, _. split; [vm_compute; reflexivity|].
  apply (@distinct_readings_distinct_startTimes spec_utils
           [ (CreateAction (ev_mouse 1%positive) false, 100);
             (ReleaseAction (ev_mouse 1%positive), 100);
             (CreateAction (ev_mouse 1%positive) false, 130);
             (EnteredAction 1%nat, 130) ]).
  - reflexivity.
  - apply (bool_decide_unpack _). vm_compute. exact I.
  - vm_compute. reflexivity.
Defined.
